(** * Data2Form: a shallow embedding of [src/src/data2form.js]

    The development follows the closure returned by [Data2Form(form_element)]:

    - the form is the list of its named controls in document order; a node
      reference (an element of a [NodeList]) is the position of the control
      in that list;
    - [settings] and [callbacks] are the two JS objects captured by the
      closure, modelled as finite maps with string keys;
    - [console.error], callback invocations and jQuery [change] triggers are
      recorded, in order, in a trace of observable events;
    - a [throw] is a [Throw] completion of a small state-and-exception monad,
      and the [try { ... } catch (error) { ... }] of [fill] is [try_catch].

    Modelling conventions (what lies outside the source file):

    - [querySelectorAll(`[name="${name}"]`)] is the lookup of the controls
      whose [name] attribute equals the key. That is what the selector does
      for a plain key (see [plain]); the key is pasted unescaped, so with a
      quote, a backslash or a line break in it the call, which sits before
      the [try] block, may throw a [SyntaxError] out of [fill] or select by
      something else. Statements about what an iteration does with a key
      found through its name either take the result of the lookup as a
      premise or ask the key to be plain;
    - [data.hasOwnProperty(key)] is the flag [p_own] of the enumerated
      property. On a data object that shadows [hasOwnProperty] or has no
      prototype the call, also before the [try] block, throws a [TypeError]
      out of [fill]; statements about the result of [fill] are therefore
      about a call that returns;
    - values of the data object are strings, as the JSDoc of the fill
      functions declares;
    - assigning [field.value] / [field.checked] stores the assigned value.
      The DOM does so for the types and values of [stores_raw] (other input
      types sanitise the value), for the selected option of a [select-one],
      for a checkbox, and for a radio button as long as at most one button
      of its group is checked by the loop (checking a radio button unchecks
      the others of its group);
    - the [jQuery] field of the environment stands for [window.jQuery] being
      defined when the closure is created and [$] naming it when [fill]
      runs;
    - [settings] is a finite map: every key is stored, also [__proto__],
      which a JS object does not keep as an own property. No recognized
      setting is affected;
    - user code (a registered callback, a jQuery handler) is a function of
      the node it receives and of the form; it may rewrite the form, call
      [setting] any number of times, and throw. It cannot read [settings]
      (the variable is private to the closure). Re-entrant [fill] and
      [callbackAfterFill] calls from user code are not modelled. *)

From Stdlib Require Import Ascii String.
From stdpp Require Import base option list strings gmap fin_maps sorting.

Local Open Scope string_scope.

(** ** Data model *)

(** A form control, with the DOM properties the source reads or writes. *)
Record control := Control {
  el_name : string;
  el_type : string;
  el_value : string;
  el_checked : bool;
  el_options : list string
}.

(** [form_element]: its named controls in document order. *)
Abbreviation form := (list control) (only parsing).

(** A value that can be thrown and pushed on [result.errors]: the text of a
    template literal, the [ReferenceError] raised by reading an unbound
    variable, or any other error object thrown by user code. *)
Inductive thrown :=
| Text (s : string)
| ReferenceError (variable : string)
| ErrorObject (message : string).

(** What user code does when it is run. *)
Record effect := Effect {
  ef_form : form;
  ef_setting_calls : list (string * bool);
  ef_thrown : option thrown
}.

Abbreviation usercode := (form -> effect) (only parsing).

(** A callback registered with [callbackAfterFill]: [fn(field, value)]. *)
Abbreviation callback := (nat -> string -> usercode) (only parsing).

(** The globals the closure reads: jQuery (with the handlers bound through
    it, run by [$(field).trigger('change')]) and the global variable [key]
    that the free identifier in [fillSelect] resolves to. *)
Record ambient := Ambient {
  jQuery : option (nat -> usercode);
  global_key : option string
}.

Inductive event :=
| ConsoleError (e : thrown)
| CallbackCall (type : string) (field : nat) (value : string)
| TriggerChange (field : nat).

(** The mutable state a [fill] call works on. *)
Record world := World {
  dom : form;
  settings : gmap string bool;
  trace : list event
}.

(** One property enumerated by [for (let key in data)], with [data[key]];
    [p_own] is the answer of [data.hasOwnProperty(key)]. *)
Record property := Property {
  p_key : string;
  p_value : string;
  p_own : bool
}.

Record fill_result := FillResult {
  success : bool;
  errors : list thrown
}.

(** The descriptor returned by [getInputField]:
    [{exists: false}] or [{exists: true, type, nodes}]. *)
Inductive input_field :=
| Absent
| Present (type : string) (nodes : list nat).

(** ** Settings *)

Definition default_settings : gmap string bool :=
  <["throwOnMissingField" := true]>
  (<["throwOnUnsupportedType" := true]>
  (<["throwOnFileError" := true]>
  (<["throwOnInvalidSelectOption" := true]> ∅))).

(** [settings.name] used as a condition: a missing property is falsy. *)
Definition enabled (s : gmap string bool) (name : string) : bool :=
  default false (s !! name).

Definition setting (key : string) (value : bool) (s : gmap string bool)
  : gmap string bool :=
  let s := if String.eqb key "strict" then (fun _ => value) <$> s else s in
  <[key := value]> s.

Definition apply_setting_calls (calls : list (string * bool))
    (s : gmap string bool) : gmap string bool :=
  foldl (fun s c => setting c.1 c.2 s) s calls.

Definition recognized : list string :=
  ["throwOnMissingField"; "throwOnUnsupportedType";
   "throwOnFileError"; "throwOnInvalidSelectOption"].

Definition supportedTypes : list string :=
  ["checkbox"; "color"; "date"; "email"; "file"; "hidden"; "month";
   "number"; "password"; "radio"; "range"; "search"; "tel"; "text"; "time";
   "url"; "week"; "select-one"; "datetime-local"].

(** [Array.prototype.includes] on strings. *)
Definition includes (l : list string) (x : string) : bool :=
  existsb (String.eqb x) l.

(** [String.prototype.split] with a one-character separator. *)
Fixpoint split (sep : ascii) (s : string) : list string :=
  match s with
  | EmptyString => [EmptyString]
  | String c s' =>
      if Ascii.eqb c sep then EmptyString :: split sep s'
      else match split sep s' with
           | [] => [String c EmptyString]
           | w :: ws => String c w :: ws
           end
  end.

(** ** The state-and-exception monad of the closure's functions *)

Inductive completion (A : Type) :=
| Normal (a : A)
| Throw (e : thrown).
Arguments Normal {A} a.
Arguments Throw {A} e.

Definition js (A : Type) := world -> completion A * world.

Definition ret {A} (a : A) : js A := fun w => (Normal a, w).

Definition throw {A} (e : thrown) : js A := fun w => (Throw e, w).

Definition bind {A B} (m : js A) (k : A -> js B) : js B :=
  fun w =>
    match m w with
    | (Normal a, w') => k a w'
    | (Throw e, w') => (Throw e, w')
    end.

Definition try_catch {A} (body : js A) (handler : thrown -> js A) : js A :=
  fun w =>
    match body w with
    | (Normal a, w') => (Normal a, w')
    | (Throw e, w') => handler e w'
    end.

Declare Scope js_scope.
Delimit Scope js_scope with js.
Notation "'let*' x := m 'in' k" := (bind m (fun x => k))
  (at level 10, x name, m at level 100, k at level 200) : js_scope.
Notation "m ;; k" := (bind m (fun _ => k))
  (at level 100, k at level 200, right associativity) : js_scope.

Local Open Scope js_scope.

(** [for (let x of xs) body], with the loop's local variable threaded. *)
Fixpoint for_of {A S : Type} (xs : list A) (body : A -> S -> js S) (s : S)
  : js S :=
  match xs with
  | [] => ret s
  | x :: xs' => let* s' := body x s in for_of xs' body s'
  end.

(** *** Primitive accesses *)

Definition set_value (v : string) (c : control) : control :=
  Control (el_name c) (el_type c) v (el_checked c) (el_options c).

Definition set_checked (b : bool) (c : control) : control :=
  Control (el_name c) (el_type c) (el_value c) b (el_options c).

Definition with_dom (f : form) (w : world) : world :=
  World f (settings w) (trace w).

Definition log (e : event) (w : world) : world :=
  World (dom w) (settings w) (trace w ++ [e]).

Definition read {A} (proj : control -> A) (dflt : A) (field : nat) : js A :=
  fun w => (Normal (default dflt (proj <$> dom w !! field)), w).

Definition write (upd : control -> control) (field : nat) : js unit :=
  fun w => (Normal tt, with_dom (alter upd field (dom w)) w).

Definition read_setting (name : string) : js bool :=
  fun w => (Normal (enabled (settings w) name), w).

Definition emit (e : event) : js unit :=
  fun w => (Normal tt, log e w).

(** Run user code: its changes of the form and its [setting] calls take
    effect whether or not it throws. *)
Definition run (u : usercode) : js unit :=
  fun w =>
    let o := u (dom w) in
    let w' := World (ef_form o)
                    (apply_setting_calls (ef_setting_calls o) (settings w))
                    (trace w) in
    match ef_thrown o with
    | Some e => (Throw e, w')
    | None => (Normal tt, w')
    end.

(** ** The functions of the closure *)

(** Positions, from [i] on, of the controls named [name]. *)
Fixpoint matching (i : nat) (f : form) (name : string) : list nat :=
  match f with
  | [] => []
  | c :: f' =>
      if String.eqb (el_name c) name then i :: matching (S i) f' name
      else matching (S i) f' name
  end.

Definition querySelectorAll (f : form) (name : string) : list nat :=
  matching 0 f name.

(** [nodes[0]] of a non-empty [NodeList]. *)
Definition item0 (nodes : list nat) : nat := default 0 (head nodes).

Definition lookup_field (f : form) (name : string) : input_field :=
  let fields := querySelectorAll f name in
  match fields with
  | [] => Absent
  | n0 :: _ => Present (default "" (el_type <$> f !! n0)) fields
  end.

Definition getInputField (name : string) : js input_field :=
  fun w => (Normal (lookup_field (dom w) name), w).

Section Closure.

Variable env : ambient.
Variable callbacks : gmap string callback.

Definition fillFile (field : nat) (value : string) : js bool :=
  if negb (String.eqb value "") then
    let* throwOn := read_setting "throwOnFileError" in
    if throwOn then
      let* name := read el_name "" field in
      throw (Text ("Field '" +:+ name +:+ "' only supports empty string"))
    else ret false
  else ret true.

Definition fillCheckbox (fields : list nat) (values : string) : js bool :=
  let values := split "," values in
  for_of fields (fun field filledAny =>
    let* v := read el_value "" field in
    let checked := includes values v in
    write (set_checked checked) field ;;
    ret (if checked then true else filledAny)) false.

Definition fillRadio (fields : list nat) (value : string) : js bool :=
  for_of fields (fun field filledAny =>
    let* v := read el_value "" field in
    let checked := String.eqb value v in
    write (set_checked checked) field ;;
    ret (if checked then true else filledAny)) false.

Definition fillField (field : nat) (value : string) : js bool :=
  write (set_value value) field ;;
  ret true.

(** The free identifier [key] of [fillSelect]: no binding of the closure is
    in scope, so it is read from the global object. *)
Definition read_global_key : js string :=
  match global_key env with
  | Some k => ret k
  | None => throw (ReferenceError "key")
  end.

Definition fillSelect (field : nat) (value : string) : js bool :=
  let* options := read el_options [] field in
  let optionExists := existsb (fun opt => String.eqb opt value) options in
  if negb optionExists then
    let* throwOn := read_setting "throwOnInvalidSelectOption" in
    if throwOn then
      let* key := read_global_key in
      throw (Text ("Field '" +:+ key +:+ "' does not have select option value '"
                   +:+ value +:+ "'"))
    else ret false
  else
    write (set_value value) field ;;
    match jQuery env with
    | Some trigger => emit (TriggerChange field) ;; run (trigger field)
    | None => ret tt
    end ;;
    ret true.

(** The [switch (input.type)] of [fill]. *)
Definition dispatch (type : string) (nodes : list nat) (value : string)
  : js bool :=
  if String.eqb type "file" then fillFile (item0 nodes) value
  else if String.eqb type "checkbox" then fillCheckbox nodes value
  else if String.eqb type "radio" then fillRadio nodes value
  else if String.eqb type "select-one" then fillSelect (item0 nodes) value
  else fillField (item0 nodes) value.

(** The body of the [try] block. *)
Definition try_body (type : string) (nodes : list nat) (value : string)
  : js unit :=
  let* filled := dispatch type nodes value in
  if filled then
    match callbacks !! type with
    | Some fn =>
        emit (CallbackCall type (item0 nodes) value) ;;
        run (fn (item0 nodes) value)
    | None => ret tt
    end
  else ret tt.

Definition record (error : thrown) (result : fill_result) : fill_result :=
  FillResult false (errors result ++ [error]).

(** One iteration of [for (let key in data)]; [result] is the local
    variable of [fill], threaded through the loop. *)
Definition fill_key (p : property) (result : fill_result) : js fill_result :=
  let key := p_key p in
  if negb (p_own p) then ret result
  else
    let* input := getInputField key in
    match input with
    | Absent =>
        let error := Text ("Field '" +:+ key +:+ "' does not exist") in
        let result := record error result in
        let* throwOn := read_setting "throwOnMissingField" in
        (if throwOn then emit (ConsoleError error) else ret tt) ;;
        ret result
    | Present type nodes =>
        if negb (includes supportedTypes type) then
          let error := Text ("Field '" +:+ key +:+ "' type not supported") in
          let result := record error result in
          let* throwOn := read_setting "throwOnUnsupportedType" in
          (if throwOn then emit (ConsoleError error) else ret tt) ;;
          ret result
        else
          try_catch
            (try_body type nodes (p_value p) ;; ret result)
            (fun error =>
               let result := record error result in
               emit (ConsoleError error) ;;
               ret result)
    end.

Definition fill (data : list property) : js fill_result :=
  for_of data fill_key (FillResult true []).

End Closure.

(** What a caller may pass as [fn] to [callbackAfterFill]: a function, or a
    value of any other type. *)
Inductive js_arg :=
| Function (fn : callback)
| NotFunction.

(** [callbackAfterFill(type, fn)]: the completion of the call and the
    [callbacks] object it leaves. *)
Definition callbackAfterFill (type : string) (fn : js_arg)
    (callbacks : gmap string callback)
  : completion unit * gmap string callback :=
  match fn with
  | Function f => (Normal tt, <[type := f]> callbacks)
  | NotFunction =>
      (Throw (ErrorObject "Callback must be a function"), callbacks)
  end.

(** ** Vocabulary of the statements *)

(** The invariant of [result]: failed exactly when an error was pushed. *)
Definition coherent (r : fill_result) : Prop :=
  success r = true <-> errors r = [].

(** Two settings objects that agree on the four recognized keys. *)
Definition agree (s1 s2 : gmap string bool) : Prop :=
  forall k, k ∈ recognized -> s1 !! k = s2 !! k.

(** Two worlds that differ at most in unrecognized settings. *)
Definition sim (w1 w2 : world) : Prop :=
  dom w1 = dom w2 /\ trace w1 = trace w2 /\ agree (settings w1) (settings w2).

(** A computation that cannot tell such worlds apart. *)
Definition respects {A} (m : js A) : Prop :=
  forall w1 w2, sim w1 w2 -> (m w1).1 = (m w2).1 /\ sim (m w1).2 (m w2).2.

(** The loop shared by [fillCheckbox] and [fillRadio]: [sel] decides, from a
    control's own value, whether it is to be checked. *)
Definition check_body (sel : string -> bool) (field : nat) (filledAny : bool)
  : js bool :=
  let* v := read el_value "" field in
  let checked := sel v in
  write (set_checked checked) field ;;
  ret (if checked then true else filledAny).

(** [field.value] of the node at position [i]. *)
Definition value_at (d : list control) (i : nat) : string :=
  default "" (el_value <$> d !! i).

(** The part of the form that field resolution depends on. *)
Definition shape (d : list control) : list (string * string) :=
  (fun c => (el_name c, el_type c)) <$> d.

(** A computation that keeps the shape of the form and changes controls only
    at positions satisfying [P]. *)
Definition touches {A} (P : nat -> Prop) (m : js A) : Prop :=
  forall w, shape (dom (m w).2) = shape (dom w) /\
            forall j, ~ P j -> dom (m w).2 !! j = dom w !! j.

(** User code that leaves the form as it finds it. *)
Definition dom_inert (u : list control -> effect) : Prop :=
  forall f, ef_form (u f) = f.

(** No jQuery handler and no registered callback rewrites the form. *)
Definition inert (env : ambient) (cbs : gmap string callback) : Prop :=
  (forall trigger n, jQuery env = Some trigger -> dom_inert (trigger n)) /\
  (forall type fn n v, cbs !! type = Some fn -> dom_inert (fn n v)).

(** The positions a strategy may write to: the first node, and for the two
    group types every node of the list. *)
Definition targets_of (type : string) (nodes : list nat) (j : nat) : Prop :=
  j = item0 nodes \/ ((type = "checkbox" \/ type = "radio") /\ j ∈ nodes).

(** The positions the iteration for key [k] may write to in form [d]. *)
Definition may_change (d : list control) (k : string) (j : nat) : Prop :=
  exists type nodes, lookup_field d k = Present type nodes /\
                     targets_of type nodes j.

(** The static part of a control: what no strategy assigns. *)
Definition static (d : list control) : list (string * string * list string) :=
  (fun c => (el_name c, el_type c, el_options c)) <$> d.

(** A computation that leaves an observation of the world as it was. *)
Definition stable {X A} (obs : world -> X) (m : js A) : Prop :=
  forall w, obs (m w).2 = obs w.

(** User code that never calls [setting]. *)
Definition setting_free (env : ambient) (cbs : gmap string callback) : Prop :=
  (forall trigger n f, jQuery env = Some trigger ->
     ef_setting_calls (trigger n f) = []) /\
  (forall type fn n v f, cbs !! type = Some fn ->
     ef_setting_calls (fn n v f) = []).

(** The errors written to the console, in order. *)
Definition diagnostics (tr : list event) : list thrown :=
  omap (fun e => match e with ConsoleError x => Some x | _ => None end) tr.

(** The two settings that gate the console output of the errors recorded
    outside the [try] block. *)
Definition both_enabled (s : gmap string bool) : Prop :=
  enabled s "throwOnMissingField" = true /\
  enabled s "throwOnUnsupportedType" = true.

(** Whether character [a] occurs in [s]. *)
Fixpoint contains (a : ascii) (s : string) : bool :=
  match s with
  | EmptyString => false
  | String c s' => Ascii.eqb c a || contains a s'
  end.

(** Line 32 pastes the key, as it is, between the double quotes of the
    selector [[name="..."]]. A key is plain when none of its characters ends
    or escapes a double-quoted CSS string, or is rewritten when the selector
    is read: the double quote, the backslash, line feed, form feed, carriage
    return and the null character. The selector built from a plain key
    selects the controls whose [name] is the key; the one built from another
    key may be refused with a [SyntaxError], before the [try] block, or
    select by other attributes. *)
Definition plain (key : string) : bool :=
  forallb (fun a => negb (contains a key))
    ["034"; "092"; "010"; "012"; "013"; "000"]%char.

(** Whether an input of type [type] keeps the string [value] as it is when
    [field.value] is assigned: a [hidden] input always does, a [text],
    [search], [tel] or [password] input does when the string has no line
    break; the other supported types rewrite what they are given (a [number]
    input reads back the empty string after [abc]). *)
Definition stores_raw (type value : string) : bool :=
  String.eqb type "hidden" ||
  (includes ["text"; "search"; "tel"; "password"] type &&
   negb (contains "010" value) && negb (contains "013" value)).

(** The result of a loop that starts from [r] and then records what a fresh
    loop would record as [r']. *)
Definition merge_results (r r' : fill_result) : fill_result :=
  FillResult (success r && success r') (errors r ++ errors r').

(** The value given by the last call, in [calls], that writes setting [k]:
    a call for [k] itself or for [strict]. *)
Fixpoint last_write (k : string) (calls : list (string * bool)) : option bool :=
  match calls with
  | [] => None
  | (k', v) :: rest =>
      match last_write k rest with
      | Some b => Some b
      | None => if String.eqb k' k || String.eqb k' "strict" then Some v
                else None
      end
  end.







(** ** Basic facts about the monad and the loop *)

Ltac js_unfold :=
  unfold bind, ret, throw, emit, read, write, read_setting, try_catch,
    getInputField in *.

Lemma for_of_app {A S : Type} (xs ys : list A) (body : A -> S -> js S) s w :
  for_of (xs ++ ys) body s w =
  match for_of xs body s w with
  | (Normal s', w') => for_of ys body s' w'
  | (Throw e, w') => (Throw e, w')
  end.
Proof.
  revert s w. induction xs as [|x xs IH]; intros s w; simpl; [done|].
  unfold bind. destruct (body x s w) as [[s'|e] w']; [apply IH | done].
Qed.

(** Once the own-property test and the lookup have returned, an iteration
    of [fill]'s loop completes normally, and either leaves [result] alone or
    records exactly one error. *)
Lemma fill_key_cases env cbs p r w :
  exists w', fill_key env cbs p r w = (Normal r, w') \/
             exists e, fill_key env cbs p r w = (Normal (record e r), w').
Proof.
  unfold fill_key. destruct (p_own p); cbn [negb]; [|by eexists; left].
  js_unfold. destruct (lookup_field (dom w) (p_key p)) as [|ty nodes].
  - destruct (enabled _ _); eexists; right; eexists; reflexivity.
  - destruct (includes supportedTypes ty); cbn [negb].
    + destruct (try_body env cbs ty nodes (p_value p) w) as [[[]|e] w'].
      * eexists; left; reflexivity.
      * eexists; right; eexists; reflexivity.
    + destruct (enabled _ _); eexists; right; eexists; reflexivity.
Qed.

Lemma fill_key_normal env cbs p r w :
  exists r' w', fill_key env cbs p r w = (Normal r', w').
Proof.
  destruct (fill_key_cases env cbs p r w) as [w' [H|[e H]]]; eauto.
Qed.

Lemma fill_loop_normal env cbs data r w :
  exists r' w', for_of data (fill_key env cbs) r w = (Normal r', w').
Proof.
  revert r w. induction data as [|p data IH]; intros r w; simpl.
  - by eexists _, _.
  - unfold bind. destruct (fill_key_normal env cbs p r w) as (r1 & w1 & ->).
    apply IH.
Qed.

(** With the key lookup and the own-property test taken to return, as
    [getInputField] and [p_own] have them, so does the loop. *)
Lemma fill_normal env cbs data w :
  exists r w', fill env cbs data w = (Normal r, w').
Proof. apply fill_loop_normal. Qed.

(** The loop, cut at one key. *)
Lemma fill_split env cbs pre p post w r1 w1 r2 w2 :
  fill env cbs pre w = (Normal r1, w1) ->
  fill_key env cbs p r1 w1 = (Normal r2, w2) ->
  fill env cbs (pre ++ p :: post) w = for_of post (fill_key env cbs) r2 w2.
Proof.
  intros Hpre Hp. unfold fill in *. rewrite for_of_app, Hpre. simpl.
  unfold bind. by rewrite Hp.
Qed.

(** ** The result invariant *)

Lemma coherent_record e r : coherent (record e r).
Proof.
  unfold coherent, record; simpl. split; [done|].
  intros H. by apply app_nil in H as [_ H].
Qed.

Lemma fill_loop_coherent env cbs data r w r' w' :
  coherent r ->
  for_of data (fill_key env cbs) r w = (Normal r', w') ->
  coherent r'.
Proof.
  revert r w. induction data as [|p data IH]; intros r w Hr; simpl.
  - js_unfold. by intros [= <- <-].
  - unfold bind.
    destruct (fill_key_cases env cbs p r w) as [w1 [->|[e ->]]]; intros H.
    + by eapply IH.
    + eapply IH; [apply coherent_record | exact H].
Qed.

(** C1: for every data mapping, form, callbacks and settings, the result
    that [fill] returns has its [success] flag [true] exactly when its
    [errors] list is empty. *)
Theorem fill_success_iff_no_errors env cbs data w r w' :
  fill env cbs data w = (Normal r, w') ->
  (success r = true <-> errors r = []).
Proof.
  intros H.
  eapply (fill_loop_coherent env cbs data (FillResult true []) w); [|exact H].
  by split.
Qed.

Lemma fill_success_iff_no_errors_witness :
  let w := World [Control "a" "text" "" false []] default_settings [] in
  let data := [Property "a" "x" true; Property "zz" "1" true] in
  let r := FillResult false [Text "Field 'zz' does not exist"] in
  (fill (Ambient None None) ∅ data w).1 = Normal r /\
  (success r = true <-> errors r = []).
Proof.
  intros w data r. split; [reflexivity|].
  apply (fill_success_iff_no_errors (Ambient None None) ∅ data w r
           (fill (Ambient None None) ∅ data w).2).
  reflexivity.
Defined.

(** C9: a data mapping without own properties yields [{success: true,
    errors: []}] and leaves the world as it was: no control is mutated, the
    settings are untouched and the trace gains no event (no callback call, no
    [console.error], no jQuery trigger), whatever the settings are. *)
Theorem fill_no_own_keys env cbs data w :
  Forall (fun p => p_own p = false) data ->
  fill env cbs data w = (Normal (FillResult true []), w).
Proof.
  unfold fill. generalize (FillResult true []) as r.
  induction data as [|p data IH]; intros r Hown; simpl; [done|].
  apply Forall_cons in Hown as [Hp Hdata].
  unfold bind, fill_key. rewrite Hp. simpl. by apply IH.
Qed.

Lemma fill_no_own_keys_witness :
  fill (Ambient None None) ∅
       [Property "inherited" "1" false; Property "toString" "x" false]
       (World [Control "inherited" "text" "" false []] default_settings [])
  = (Normal (FillResult true []),
     World [Control "inherited" "text" "" false []] default_settings []).
Proof.
  apply fill_no_own_keys. repeat constructor.
Defined.

(** ** Field resolution *)

Lemma elem_of_matching f name i j :
  j ∈ matching i f name <->
  exists c, i <= j /\ f !! (j - i) = Some c /\ el_name c = name.
Proof.
  revert i. induction f as [|c f IH]; intros i; simpl.
  - split; [by intros ?%elem_of_nil | by intros (c & _ & ? & _)].
  - assert (j ∈ matching (S i) f name <->
            exists c', i < j /\ f !! (j - S i) = Some c' /\ el_name c' = name)
      as IH'.
    { rewrite IH. split; intros (c' & Hle & Hc'); exists c'; split;
        (lia || done). }
    assert (forall c', i < j ->
              (c :: f) !! (j - i) = Some c' <-> f !! (j - S i) = Some c')
      as Hshift.
    { intros c' Hlt. by replace (j - i) with (S (j - S i)) by lia. }
    destruct (String.eqb_spec (el_name c) name) as [Heq|Hne].
    + rewrite elem_of_cons, IH'. split.
      * intros [->|(c' & Hlt & Hc' & Hn)].
        -- exists c. by rewrite Nat.sub_diag.
        -- exists c'. split; [lia|]. by rewrite Hshift.
      * intros (c' & Hle & Hc' & Hn).
        destruct (decide (j = i)) as [->|Hji]; [by left|right].
        exists c'. split; [lia|]. by rewrite <- Hshift by lia.
    + rewrite IH'. split.
      * intros (c' & Hlt & Hc' & Hn). exists c'. split; [lia|].
        by rewrite Hshift.
      * intros (c' & Hle & Hc' & Hn).
        destruct (decide (j = i)) as [->|Hji].
        -- rewrite Nat.sub_diag in Hc'. simpl in Hc'. congruence.
        -- exists c'. split; [lia|]. by rewrite <- Hshift by lia.
Qed.

(** The node list of a name: exactly the positions of the controls that
    carry it. *)
Lemma elem_of_querySelectorAll f name j :
  j ∈ querySelectorAll f name <->
  exists c, f !! j = Some c /\ el_name c = name.
Proof.
  unfold querySelectorAll. rewrite elem_of_matching, Nat.sub_0_r.
  split; intros (c & H); exists c; [by destruct H | split; [lia | done]].
Qed.

Lemma querySelectorAll_nil f name :
  Forall (fun c => el_name c <> name) f -> querySelectorAll f name = [].
Proof.
  intros Hall. destruct (querySelectorAll f name) as [|j l] eqn:E; [done|].
  assert (j ∈ querySelectorAll f name) as Hj by (rewrite E; left).
  apply elem_of_querySelectorAll in Hj as (c & Hc & Hn).
  rewrite Forall_forall in Hall. destruct (Hall c); [|done].
  by eapply list_elem_of_lookup_2.
Qed.

Lemma lookup_field_absent f name :
  Forall (fun c => el_name c <> name) f -> lookup_field f name = Absent.
Proof. intros H. unfold lookup_field. by rewrite querySelectorAll_nil. Qed.

(** A present field: its node list is the query result, and its type is the
    type of the first node, which carries the name asked for. *)
Lemma lookup_field_present f name ty nodes :
  lookup_field f name = Present ty nodes ->
  nodes = querySelectorAll f name /\
  exists c, f !! item0 nodes = Some c /\ el_name c = name /\ el_type c = ty.
Proof.
  unfold lookup_field.
  destruct (querySelectorAll f name) as [|n0 l] eqn:E; [done|].
  intros [= <- <-]. split; [done|]. simpl.
  assert (n0 ∈ querySelectorAll f name) as Hn by (rewrite E; left).
  apply elem_of_querySelectorAll in Hn as (c & Hc & Hname).
  exists c. by rewrite Hc.
Qed.

Lemma matching_head_least i f name h l j :
  matching i f name = h :: l -> j ∈ matching i f name -> h <= j.
Proof.
  revert i. induction f as [|c f IH]; intros i; simpl; [done|].
  destruct (String.eqb_spec (el_name c) name) as [Heq|Hne]; [|apply IH].
  intros [= <- <-]. rewrite elem_of_cons, elem_of_matching.
  intros [->|(c' & Hle & _)]; lia.
Qed.

(** The first node of a present field is the first control, in document
    order, that carries the name. *)
Lemma item0_first f name ty nodes j c :
  lookup_field f name = Present ty nodes ->
  f !! j = Some c -> el_name c = name -> item0 nodes <= j.
Proof.
  intros Hlook Hc Hname.
  assert (j ∈ querySelectorAll f name) as Hj
    by (apply elem_of_querySelectorAll; eauto).
  unfold lookup_field in Hlook. unfold querySelectorAll in *.
  destruct (matching 0 f name) as [|n0 l] eqn:E; [done|].
  injection Hlook as _ <-. simpl. rewrite <- E in Hj.
  by apply (matching_head_least 0 f name n0 l j).
Qed.

(** ** Missing fields *)

(** C6, for plain keys: when the loop reaches an own, plain key that no
    control of the form carries, it appends exactly one error,
    [Field '<key>' does not exist], to [result.errors], sets [success] to
    [false], leaves every control (and the settings) as they were, writes the
    error to the console only if [throwOnMissingField] is enabled, and goes
    on with the remaining keys. *)
Theorem fill_missing_field env cbs pre p post w r1 w1 :
  p_own p = true ->
  plain (p_key p) = true ->
  fill env cbs pre w = (Normal r1, w1) ->
  Forall (fun c => el_name c <> p_key p) (dom w1) ->
  let error := Text ("Field '" +:+ p_key p +:+ "' does not exist") in
  let r2 := FillResult false (errors r1 ++ [error]) in
  let w2 := if enabled (settings w1) "throwOnMissingField"
            then log (ConsoleError error) w1 else w1 in
  fill_key env cbs p r1 w1 = (Normal r2, w2) /\
  dom w2 = dom w1 /\ settings w2 = settings w1 /\
  fill env cbs (pre ++ p :: post) w = for_of post (fill_key env cbs) r2 w2.
Proof.
  intros Hown _ Hpre Hnone error r2 w2.
  assert (fill_key env cbs p r1 w1 = (Normal r2, w2)) as Hkey.
  { unfold fill_key. rewrite Hown. cbn [negb]. js_unfold.
    rewrite (lookup_field_absent _ _ Hnone).
    subst w2. by destruct (enabled _ _). }
  split; [done|]. repeat split.
  - subst w2. by destruct (enabled _ _).
  - subst w2. by destruct (enabled _ _).
  - by apply (fill_split env cbs pre p post w r1 w1).
Qed.

Lemma fill_missing_field_witness :
  let env := Ambient None None in
  let a := Control "a" "text" "" false [] in
  let b := Control "b" "text" "" false [] in
  let w := World [a; b] default_settings [] in
  let w1 := World [set_value "x" a; b] default_settings [] in
  let p := Property "zz" "1" true in
  let post := [Property "b" "y" true] in
  let error := Text "Field 'zz' does not exist" in
  fill_key env ∅ p (FillResult true []) w1 =
    (Normal (FillResult false [error]), log (ConsoleError error) w1) /\
  fill env ∅ ([Property "a" "x" true] ++ p :: post) w =
    (Normal (FillResult false [error]),
     log (ConsoleError error)
       (World [set_value "x" a; set_value "y" b] default_settings [])).
Proof.
  intros env a b w w1 p post error.
  destruct (fill_missing_field env ∅ [Property "a" "x" true] p post w
              (FillResult true []) w1) as (H1 & _ & _ & H2).
  - reflexivity.
  - reflexivity.
  - reflexivity.
  - repeat constructor; discriminate.
  - split; [exact H1 | rewrite H2; reflexivity].
Defined.

(** ** Unsupported types *)

(** An own key whose field has a type outside [supportedTypes] records
    [Field '<key>' type not supported] and changes no control. *)
Lemma fill_unsupported_type env cbs p r w type nodes :
  p_own p = true ->
  lookup_field (dom w) (p_key p) = Present type nodes ->
  includes supportedTypes type = false ->
  let error := Text ("Field '" +:+ p_key p +:+ "' type not supported") in
  fill_key env cbs p r w =
    (Normal (FillResult false (errors r ++ [error])),
     if enabled (settings w) "throwOnUnsupportedType"
     then log (ConsoleError error) w else w).
Proof.
  intros Hown Hlook Hsup error. unfold fill_key.
  rewrite Hown. cbn [negb]. js_unfold. rewrite Hlook, Hsup. cbn [negb].
  by destruct (enabled _ _).
Qed.

Example fill_textarea_unsupported :
  fst (fill (Ambient None None) ∅ [Property "bio" "hello" true]
         (World [Control "bio" "textarea" "" false []] default_settings []))
  = Normal (FillResult false [Text "Field 'bio' type not supported"]).
Proof. reflexivity. Qed.

(** ** File fields *)

Lemma negb_eqb_empty (v : string) : v <> "" -> negb (String.eqb v "") = true.
Proof. intros H. by destruct (String.eqb_spec v ""). Qed.

(** C3 (amended): for a key that resolves to a [file] field, the strategy
    accepts the exact empty string (it reports the field filled, throws
    nothing and changes nothing, so without a [file] callback the iteration
    leaves result and world as they were); a non-empty value records
    [Field '<key>' only supports empty string], with [success = false] and a
    console diagnostic, when [throwOnFileError] is enabled, and records
    nothing at all when it is disabled. *)
Theorem fill_file_field env cbs p r w nodes :
  p_own p = true ->
  lookup_field (dom w) (p_key p) = Present "file" nodes ->
  (p_value p = "" ->
     dispatch env "file" nodes (p_value p) w = (Normal true, w) /\
     (cbs !! "file" = None -> fill_key env cbs p r w = (Normal r, w))) /\
  (p_value p <> "" ->
     let error :=
       Text ("Field '" +:+ p_key p +:+ "' only supports empty string") in
     fill_key env cbs p r w =
       if enabled (settings w) "throwOnFileError"
       then (Normal (FillResult false (errors r ++ [error])),
             log (ConsoleError error) w)
       else (Normal r, w)).
Proof.
  intros Hown Hlook.
  pose proof (lookup_field_present _ _ _ _ Hlook) as (_ & c & Hc & Hname & _).
  split.
  - intros Hv. split.
    + by rewrite Hv.
    + intros Hcb. unfold fill_key. rewrite Hown. cbn [negb]. js_unfold.
      rewrite Hlook. change (includes supportedTypes "file") with true.
      cbn [negb]. unfold try_body. js_unfold. rewrite Hcb, Hv. reflexivity.
  - intros Hv error. unfold fill_key. rewrite Hown. cbn [negb]. js_unfold.
    rewrite Hlook. change (includes supportedTypes "file") with true.
    cbn [negb]. unfold try_body, dispatch.
    change (String.eqb "file" "file") with true. cbv iota.
    unfold fillFile. rewrite (negb_eqb_empty _ Hv). js_unfold.
    destruct (enabled (settings w) "throwOnFileError").
    + rewrite Hc. simpl. rewrite Hname. reflexivity.
    + by destruct (cbs !! "file").
Qed.

Lemma fill_file_field_witness :
  let w := World [Control "cv" "file" "" false []] default_settings [] in
  let error := Text "Field 'cv' only supports empty string" in
  fill_key (Ambient None None) ∅ (Property "cv" "resume.pdf" true)
           (FillResult true []) w
  = (Normal (FillResult false [error]), log (ConsoleError error) w).
Proof.
  intros w error.
  destruct (fill_file_field (Ambient None None) ∅
              (Property "cv" "resume.pdf" true) (FillResult true []) w [0])
    as [_ H].
  - reflexivity.
  - reflexivity.
  - apply H. discriminate.
Defined.

(** C3 as stated fails: with [throwOnFileError] disabled, a non-empty value
    for a file field records no error and [fill] reports success. *)
Lemma fill_file_silent_when_disabled :
  let w := World [Control "cv" "file" "" false []]
                 (setting "throwOnFileError" false default_settings) [] in
  lookup_field (dom w) "cv" = Present "file" [0] /\
  enabled (settings w) "throwOnFileError" = false /\
  fill (Ambient None None) ∅ [Property "cv" "resume.pdf" true] w
  = (Normal (FillResult true []), w).
Proof. repeat split. Qed.

(** ** Select fields *)

Lemma option_missing (value : string) (options : list string) :
  value ∉ options ->
  existsb (fun opt => String.eqb opt value) options = false.
Proof.
  induction options as [|o options IH]; intros Hnot; simpl; [done|].
  apply not_elem_of_cons in Hnot as [Hne Hnot].
  rewrite (IH Hnot), orb_false_r.
  destruct (String.eqb_spec o value); congruence.
Qed.

(** C2 (amended): for a key that resolves to a [select-one] field and a value
    that is none of the control's option values, the setting
    [throwOnInvalidSelectOption] decides whether anything is recorded: when
    it is enabled the iteration appends exactly one error to [result.errors],
    sets [success] to [false] and writes that error to the console; when it
    is disabled the iteration records nothing, surfaces nothing and leaves
    [success] as it was. In both cases no control is changed. *)
Theorem fill_select_invalid_option env cbs p r w nodes c :
  p_own p = true ->
  lookup_field (dom w) (p_key p) = Present "select-one" nodes ->
  dom w !! item0 nodes = Some c ->
  p_value p ∉ el_options c ->
  if enabled (settings w) "throwOnInvalidSelectOption"
  then exists e,
         fill_key env cbs p r w =
           (Normal (FillResult false (errors r ++ [e])),
            log (ConsoleError e) w)
  else fill_key env cbs p r w = (Normal r, w).
Proof.
  intros Hown Hlook Hc Hopt.
  unfold fill_key. rewrite Hown. cbn [negb]. js_unfold.
  rewrite Hlook. change (includes supportedTypes "select-one") with true.
  cbn [negb]. unfold try_body, dispatch.
  change (String.eqb "select-one" "file") with false.
  change (String.eqb "select-one" "checkbox") with false.
  change (String.eqb "select-one" "radio") with false.
  change (String.eqb "select-one" "select-one") with true. cbv iota.
  unfold fillSelect, read_global_key. js_unfold. rewrite Hc. simpl.
  rewrite (option_missing _ _ Hopt). cbn [negb].
  destruct (enabled (settings w) "throwOnInvalidSelectOption").
  - destruct (global_key env); eexists; reflexivity.
  - by destruct (cbs !! "select-one").
Qed.

Lemma fill_select_invalid_option_witness :
  let w := World [Control "country" "select-one" "US" false ["US"; "FR"]]
                 default_settings [] in
  exists e,
    fill_key (Ambient None None) ∅ (Property "country" "XX" true)
             (FillResult true []) w
    = (Normal (FillResult false [e]), log (ConsoleError e) w).
Proof.
  intros w.
  apply (fill_select_invalid_option (Ambient None None) ∅
           (Property "country" "XX" true) (FillResult true []) w [0]
           (Control "country" "select-one" "US" false ["US"; "FR"])).
  - reflexivity.
  - reflexivity.
  - reflexivity.
  - simpl. rewrite !not_elem_of_cons. repeat split; try discriminate.
    apply not_elem_of_nil.
Defined.

(** C2 as stated fails: with [throwOnInvalidSelectOption] disabled, a value
    that is not an option of the select records no error and [fill] reports
    success. *)
Lemma fill_select_silent_when_disabled :
  let w := World [Control "country" "select-one" "US" false ["US"; "FR"]]
                 (setting "throwOnInvalidSelectOption" false default_settings)
                 [] in
  lookup_field (dom w) "country" = Present "select-one" [0] /\
  includes ["US"; "FR"] "XX" = false /\
  enabled (settings w) "throwOnInvalidSelectOption" = false /\
  fill (Ambient None None) ∅ [Property "country" "XX" true] w
  = (Normal (FillResult true []), w).
Proof. repeat split. Qed.

(** C8 on the code: the text thrown by [fillSelect] interpolates the free
    identifier [key], not the field's name. With the default settings, a
    select named [country] and the value [XX], the recorded error is the
    [ReferenceError] for [key] when no such global exists, and names the
    global's content ([other]) when one does; in neither case does it name
    the field [country]. *)
Theorem fill_select_error_ignores_field_name :
  let w := World [Control "country" "select-one" "US" false ["US"; "FR"]]
                 default_settings [] in
  let data := [Property "country" "XX" true] in
  fst (fill (Ambient None None) ∅ data w)
  = Normal (FillResult false [ReferenceError "key"]) /\
  fst (fill (Ambient None (Some "other")) ∅ data w)
  = Normal (FillResult false
      [Text "Field 'other' does not have select option value 'XX'"]).
Proof. split; reflexivity. Qed.

(** ** Callbacks *)

(** C4 (amended): when the strategy of a supported field reports it filled
    and a callback is registered for the resolved type, the iteration calls
    that callback, once and at once, with the first matched control and the
    raw value. The call sits inside the [try] block: an exception thrown by
    the callback is caught there, appended to [result.errors] (with
    [success = false]) and written to the console, and [fill] goes on; it
    does not reach the caller of [fill]. *)
Theorem fill_callback_inside_try env cbs p r w type nodes fn w1 :
  p_own p = true ->
  lookup_field (dom w) (p_key p) = Present type nodes ->
  includes supportedTypes type = true ->
  dispatch env type nodes (p_value p) w = (Normal true, w1) ->
  cbs !! type = Some fn ->
  let call := CallbackCall type (item0 nodes) (p_value p) in
  let o := fn (item0 nodes) (p_value p) (dom w1) in
  let w2 := World (ef_form o)
                  (apply_setting_calls (ef_setting_calls o) (settings w1))
                  (trace w1 ++ [call]) in
  fill_key env cbs p r w =
    match ef_thrown o with
    | Some e => (Normal (FillResult false (errors r ++ [e])),
                 log (ConsoleError e) w2)
    | None => (Normal r, w2)
    end.
Proof.
  intros Hown Hlook Hsup Hfilled Hcb call o w2.
  unfold fill_key. rewrite Hown. cbn [negb]. js_unfold.
  rewrite Hlook, Hsup. cbn [negb]. unfold try_body. js_unfold.
  rewrite Hfilled, Hcb. unfold run, log. simpl.
  fold o. by destruct (ef_thrown o).
Qed.

Lemma fill_callback_inside_try_witness :
  let fn := fun (_ : nat) (_ : string) (f : list control) =>
              Effect f [] (Some (ErrorObject "boom")) in
  let w := World [Control "a" "text" "" false []] default_settings [] in
  let w1 := World [Control "a" "text" "hi" false []] default_settings [] in
  fill_key (Ambient None None) {["text" := fn]} (Property "a" "hi" true)
           (FillResult true []) w
  = (Normal (FillResult false [ErrorObject "boom"]),
     log (ConsoleError (ErrorObject "boom"))
         (log (CallbackCall "text" 0 "hi") w1)).
Proof.
  intros fn w w1.
  apply (fill_callback_inside_try (Ambient None None) {["text" := fn]}
           (Property "a" "hi" true) (FillResult true []) w "text" [0] fn w1);
    reflexivity.
Defined.

(** C4 as stated fails: a [text] callback that throws does not make [fill]
    complete with [Throw]; [fill] returns normally, with the thrown value in
    [errors]. *)
Lemma fill_catches_callback_exception :
  let fn := fun (_ : nat) (_ : string) (f : list control) =>
              Effect f [] (Some (ErrorObject "boom")) in
  let w := World [Control "a" "text" "" false []] default_settings [] in
  (forall e w', fill (Ambient None None) {["text" := fn]}
                     [Property "a" "hi" true] w <> (Throw e, w')) /\
  fst (fill (Ambient None None) {["text" := fn]} [Property "a" "hi" true] w)
  = Normal (FillResult false [ErrorObject "boom"]).
Proof. split; [intros e w'; discriminate | reflexivity]. Qed.

(** ** Settings *)

Lemma setting_lookup k v s j :
  setting k v s !! j =
  if decide (k = j) then Some v
  else if String.eqb k "strict" then (fun _ => v) <$> s !! j else s !! j.
Proof.
  unfold setting. rewrite lookup_insert. case_decide; [done|].
  destruct (String.eqb k "strict"); [by rewrite lookup_fmap | done].
Qed.

(** No [setting] call removes a key. *)
Lemma setting_keeps k v s j : is_Some (s !! j) -> is_Some (setting k v s !! j).
Proof.
  intros [b Hb]. rewrite setting_lookup, Hb.
  case_decide; [eauto|]. destruct (String.eqb k "strict"); simpl; eauto.
Qed.

Lemma apply_setting_calls_keeps calls s j :
  is_Some (s !! j) -> is_Some (apply_setting_calls calls s !! j).
Proof.
  revert s. induction calls as [|[k v] calls IH]; intros s Hs; simpl; [done|].
  apply IH. by apply setting_keeps.
Qed.

Lemma default_settings_recognized k :
  k ∈ recognized -> is_Some (default_settings !! k).
Proof.
  unfold recognized. rewrite !elem_of_cons, elem_of_nil.
  intros [->|[->|[->|[->|[]]]]]; by eexists.
Qed.

(** *** What [fill] reads of the settings *)

Lemma agree_setting k v s1 s2 :
  agree s1 s2 -> agree (setting k v s1) (setting k v s2).
Proof. intros H j Hj. by rewrite !setting_lookup, (H j Hj). Qed.

Lemma agree_apply_setting_calls calls s1 s2 :
  agree s1 s2 ->
  agree (apply_setting_calls calls s1) (apply_setting_calls calls s2).
Proof.
  revert s1 s2. induction calls as [|[k v] calls IH]; intros s1 s2 H; [done|].
  simpl. apply IH. by apply agree_setting.
Qed.

Lemma respects_ret {A} (a : A) : respects (ret a).
Proof. by intros w1 w2 H. Qed.

Lemma respects_throw {A} e : respects (@throw A e).
Proof. by intros w1 w2 H. Qed.

Lemma respects_bind {A B} (m : js A) (k : A -> js B) :
  respects m -> (forall a, respects (k a)) -> respects (bind m k).
Proof.
  intros Hm Hk w1 w2 H. unfold bind. destruct (Hm w1 w2 H) as [Hc Hw].
  destruct (m w1) as [c1 w1'], (m w2) as [c2 w2']; simpl in *. subst c2.
  destruct c1 as [a|e]; [by apply Hk | done].
Qed.

Lemma respects_try_catch {A} (m : js A) (h : thrown -> js A) :
  respects m -> (forall e, respects (h e)) -> respects (try_catch m h).
Proof.
  intros Hm Hh w1 w2 H. unfold try_catch. destruct (Hm w1 w2 H) as [Hc Hw].
  destruct (m w1) as [c1 w1'], (m w2) as [c2 w2']; simpl in *. subst c2.
  destruct c1 as [a|e]; [done | by apply Hh].
Qed.

Lemma respects_read {A} (proj : control -> A) dflt field :
  respects (read proj dflt field).
Proof.
  intros w1 w2 H. unfold read; simpl.
  split; [by destruct H as [-> _] | done].
Qed.

Lemma respects_write upd field : respects (write upd field).
Proof.
  intros w1 w2 (Hd & Ht & Hs). unfold write, with_dom, sim; simpl.
  by rewrite Hd.
Qed.

Lemma respects_emit e : respects (emit e).
Proof.
  intros w1 w2 (Hd & Ht & Hs). unfold emit, log, sim; simpl.
  by rewrite Ht.
Qed.

Lemma respects_read_setting name :
  name ∈ recognized -> respects (read_setting name).
Proof.
  intros Hname w1 w2 (Hd & Ht & Hs). unfold read_setting, enabled; simpl.
  by rewrite (Hs name Hname).
Qed.

Lemma respects_run u : respects (run u).
Proof.
  intros w1 w2 (Hd & Ht & Hs). unfold run. rewrite Hd.
  assert (sim
    (World (ef_form (u (dom w2)))
       (apply_setting_calls (ef_setting_calls (u (dom w2))) (settings w1))
       (trace w1))
    (World (ef_form (u (dom w2)))
       (apply_setting_calls (ef_setting_calls (u (dom w2))) (settings w2))
       (trace w2))) as Hsim.
  { split; [done|]. split; [done|]. simpl. by apply agree_apply_setting_calls. }
  by destruct (ef_thrown (u (dom w2))).
Qed.

Lemma respects_getInputField name : respects (getInputField name).
Proof.
  intros w1 w2 H. unfold getInputField; simpl.
  split; [by destruct H as [-> _] | done].
Qed.

Lemma respects_for_of {A S} (xs : list A) (body : A -> S -> js S) s :
  (forall x s', respects (body x s')) -> respects (for_of xs body s).
Proof.
  intros Hbody. revert s. induction xs as [|x xs IH]; intros s; simpl.
  - apply respects_ret.
  - apply respects_bind; [apply Hbody | apply IH].
Qed.

Lemma recognized_1 : "throwOnMissingField" ∈ recognized.
Proof. unfold recognized. set_solver. Qed.
Lemma recognized_2 : "throwOnUnsupportedType" ∈ recognized.
Proof. unfold recognized. set_solver. Qed.
Lemma recognized_3 : "throwOnFileError" ∈ recognized.
Proof. unfold recognized. set_solver. Qed.
Lemma recognized_4 : "throwOnInvalidSelectOption" ∈ recognized.
Proof. unfold recognized. set_solver. Qed.

Create HintDb respects.
#[local] Hint Resolve respects_ret respects_throw respects_read
  respects_write respects_emit respects_run respects_getInputField
  recognized_1 recognized_2 recognized_3 recognized_4
  respects_read_setting : respects.

Ltac respects_step :=
  match goal with
  | |- respects (bind _ _) => apply respects_bind; [|intros ?]
  | |- respects (try_catch _ _) => apply respects_try_catch; [|intros ?]
  | |- respects (for_of _ _ _) => apply respects_for_of; intros ? ?
  | |- respects (if ?b then _ else _) => destruct b
  | |- respects (match ?o with Some _ => _ | None => _ end) => destruct o
  | |- respects (match ?i with Absent => _ | Present _ _ => _ end) =>
      destruct i
  | |- respects _ => solve [auto with respects]
  end.

Lemma respects_dispatch env type nodes value :
  respects (dispatch env type nodes value).
Proof.
  unfold dispatch, fillFile, fillCheckbox, fillRadio, fillSelect, fillField,
    read_global_key.
  repeat respects_step.
Qed.

Lemma respects_fill_key env cbs p r : respects (fill_key env cbs p r).
Proof.
  unfold fill_key, try_body. pose proof (respects_dispatch env).
  repeat respects_step; auto.
Qed.

(** [fill] reads nothing of the settings but the four recognized keys. *)
Lemma respects_fill env cbs data : respects (fill env cbs data).
Proof.
  unfold fill. apply respects_for_of. intros p r. apply respects_fill_key.
Qed.

Lemma agree_delete_strict s : agree s (delete "strict" s).
Proof.
  intros k Hk. rewrite lookup_delete_ne; [done|].
  intros <-. revert Hk. unfold recognized.
  rewrite !elem_of_cons, elem_of_nil.
  intros [?|[?|[?|[?|[]]]]]; discriminate.
Qed.

(** C7: in any settings object reached from the defaults by [setting] calls,
    [setting('strict', v)] makes each of the four recognized settings hold
    (and read as) [v], and also stores [v] under the literal key [strict];
    that entry is inert: with it or without it, [fill] returns the same
    result, leaves the same form and produces the same trace, and the four
    recognized settings end up the same. *)
Theorem setting_strict calls v :
  let s := setting "strict" v (apply_setting_calls calls default_settings) in
  Forall (fun k => s !! k = Some v /\ enabled s k = v) recognized /\
  s !! "strict" = Some v /\
  forall env cbs data f tr,
    let out := fill env cbs data (World f s tr) in
    let out' := fill env cbs data (World f (delete "strict" s) tr) in
    out.1 = out'.1 /\ dom out.2 = dom out'.2 /\ trace out.2 = trace out'.2 /\
    agree (settings out.2) (settings out'.2).
Proof.
  intros s. split; [|split].
  - apply Forall_forall. intros k Hk.
    assert (s !! k = Some v) as Hv.
    { destruct (apply_setting_calls_keeps calls default_settings k
                  (default_settings_recognized k Hk)) as [b Hb].
      subst s. rewrite setting_lookup, Hb. by case_decide. }
    split; [done|]. unfold enabled. by rewrite Hv.
  - subst s. rewrite setting_lookup. by case_decide.
  - intros env cbs data f tr out out'.
    destruct (respects_fill env cbs data (World f s tr)
                (World f (delete "strict" s) tr)) as (Hc & Hd & Ht & Hs).
    + split; [done|]. split; [done|]. apply agree_delete_strict.
    + done.
Qed.

(** [setting('strict', false)] on the defaults, evaluated. *)
Example setting_strict_false :
  let s := setting "strict" false default_settings in
  (s !!.) <$> (recognized ++ ["strict"; "other"])%list =
  [Some false; Some false; Some false; Some false; Some false; None].
Proof. reflexivity. Qed.

(** ** Checkbox and radio groups *)

Lemma fillCheckbox_unfold fields values :
  fillCheckbox fields values =
  for_of fields (check_body (includes (split "," values))) false.
Proof. reflexivity. Qed.

Lemma fillRadio_unfold fields value :
  fillRadio fields value = for_of fields (check_body (String.eqb value)) false.
Proof. reflexivity. Qed.

Lemma set_checked_idem b c : set_checked b (set_checked b c) = set_checked b c.
Proof. by destruct c. Qed.

Lemma existsb_pointwise {A} (f g : A -> bool) l :
  (forall x, f x = g x) -> existsb f l = existsb g l.
Proof. intros H. induction l as [|x l IH]; simpl; [done|]. by rewrite H, IH. Qed.

(** The loop never throws; it touches only [checked], only on the listed
    nodes, and returns whether some listed node was selected. *)
Lemma check_loop_spec sel fields acc w :
  exists d',
    for_of fields (check_body sel) acc w =
      (Normal (acc || existsb (fun i => sel (value_at (dom w) i)) fields),
       with_dom d' w) /\
    forall j, d' !! j =
      (fun c => if decide (j ∈ fields)
                then set_checked (sel (el_value c)) c else c) <$> dom w !! j.
Proof.
  revert acc w. induction fields as [|i fields IH]; intros acc w.
  - exists (dom w). split.
    + simpl. unfold ret. destruct w. by rewrite orb_false_r.
    + intros j. by destruct (dom w !! j).
  - set (b := sel (value_at (dom w) i)).
    set (w1 := with_dom (alter (set_checked b) i (dom w)) w).
    destruct (IH (if b then true else acc) w1) as (d' & Hrun & Hd').
    exists d'. split.
    + cbn [for_of]. unfold bind at 1. unfold check_body at 1. js_unfold.
      fold (value_at (dom w) i). fold b. fold w1. rewrite Hrun.
      f_equal. f_equal.
      * cbn [existsb]. fold b.
        assert (forall k, value_at (dom w1) k = value_at (dom w) k) as Hval.
        { intros k. unfold value_at, w1; simpl.
          destruct (decide (i = k)) as [->|Hne].
          - rewrite list_lookup_alter_eq. by destruct (dom w !! k).
          - by rewrite list_lookup_alter_ne. }
        rewrite (existsb_pointwise _ (fun k => sel (value_at (dom w) k)))
          by (intros k; by rewrite Hval).
        by destruct b, acc.
    + intros j. rewrite Hd'. unfold w1; simpl.
      destruct (decide (i = j)) as [->|Hne].
      * rewrite list_lookup_alter_eq.
        destruct (dom w !! j) as [c|] eqn:Hc; simpl; [|done].
        rewrite (decide_True (P := j ∈ j :: fields)) by left.
        unfold b, value_at. rewrite Hc. simpl.
        case_decide; [by rewrite set_checked_idem | done].
      * rewrite list_lookup_alter_ne by done.
        destruct (dom w !! j) as [c|]; simpl; [|done].
        destruct (decide (j ∈ fields)) as [Hin|Hnin].
        -- by rewrite decide_True by (by right).
        -- rewrite decide_False; [done|].
           rewrite elem_of_cons. intros [->|?]; done.
Qed.

Lemma includes_spec l x : includes l x = true <-> x ∈ l.
Proof.
  unfold includes. rewrite existsb_exists. split.
  - intros (y & Hy & Heq). apply String.eqb_eq in Heq as ->.
    by apply list_elem_of_In.
  - intros Hx. exists x. split; [by apply list_elem_of_In|].
    apply String.eqb_refl.
Qed.

Lemma same_lookup_length {A} (l1 l2 : list A) :
  (forall j, is_Some (l1 !! j) <-> is_Some (l2 !! j)) -> length l1 = length l2.
Proof.
  intros H.
  destruct (Nat.lt_trichotomy (length l1) (length l2)) as [Hlt|[Heq|Hgt]].
  - apply lookup_lt_is_Some_2, H, lookup_lt_is_Some_1 in Hlt. lia.
  - done.
  - apply lookup_lt_is_Some_2, H, lookup_lt_is_Some_1 in Hgt. lia.
Qed.

(** *** The pieces of [split] *)

Lemma split_nonempty sep s : split sep s <> [].
Proof.
  destruct s as [|c s]; simpl; [done|].
  destruct (Ascii.eqb c sep); [done|]. by destruct (split sep s).
Qed.

(** No piece produced by [split] contains the separator. *)
Lemma split_pieces sep s piece :
  piece ∈ split sep s -> contains sep piece = false.
Proof.
  revert piece. induction s as [|c s IH]; intros piece; simpl.
  - by intros ->%list_elem_of_singleton.
  - destruct (Ascii.eqb c sep) eqn:Hc.
    + intros [->|H]%elem_of_cons; [done | by apply IH].
    + destruct (split sep s) as [|w ws] eqn:E.
      * by destruct (split_nonempty sep s).
      * intros [->|H]%elem_of_cons.
        -- simpl. rewrite Hc. apply IH. left.
        -- apply IH. by right.
Qed.

(** Joining the pieces with the separator gives the string back. *)
Lemma split_join sep s : String.concat (String sep "") (split sep s) = s.
Proof.
  induction s as [|c s IH]; simpl; [done|].
  destruct (Ascii.eqb_spec c sep) as [->|Hne].
  - destruct (split sep s) as [|x xs] eqn:E; [by destruct (split_nonempty sep s)|].
    change (String.concat (String sep "") ("" :: x :: xs)) with
      (String sep (String.concat (String sep "") (x :: xs))).
    by rewrite IH.
  - destruct (split sep s) as [|x xs] eqn:E; [by destruct (split_nonempty sep s)|].
    rewrite <- IH. by destruct xs.
Qed.

(** C5: the checkbox strategy cuts the value at its commas: the pieces are
    free of commas and, joined by commas, give the value back. On a group
    of checkboxes named [name] it completes normally, sets [checked] on each
    control of the group to whether the control's own value is one of the
    pieces (leaving every other control and property alone), and reports
    [filled = true] exactly when some control of the group ends up checked;
    when it reports [false] (or no checkbox callback is registered) the
    iteration of [fill] records no error and surfaces nothing. *)
Theorem fillCheckbox_group env cbs name values w :
  Forall (fun c => el_name c = name -> el_type c = "checkbox") (dom w) ->
  let fields := querySelectorAll (dom w) name in
  let targets := split "," values in
  (targets <> [] /\ Forall (fun t => contains "," t = false) targets /\
   String.concat "," targets = values) /\
  exists filled d',
    fillCheckbox fields values w = (Normal filled, with_dom d' w) /\
    length d' = length (dom w) /\
    (forall j c, dom w !! j = Some c ->
       d' !! j = Some (if String.eqb (el_name c) name
                       then set_checked (includes targets (el_value c)) c
                       else c)) /\
    (forall j c', d' !! j = Some c' -> el_name c' = name ->
       (el_checked c' = true <-> el_value c' ∈ targets)) /\
    (filled = true <->
     exists j c', d' !! j = Some c' /\ el_name c' = name /\
                  el_checked c' = true) /\
    (forall p r nodes,
       p_own p = true -> p_key p = name -> p_value p = values ->
       lookup_field (dom w) name = Present "checkbox" nodes ->
       filled = false \/ cbs !! "checkbox" = None ->
       fill_key env cbs p r w = (Normal r, with_dom d' w)).
Proof.
  intros _ fields targets. split.
  { split; [apply split_nonempty|]. split; [|apply split_join].
    apply Forall_forall. intros t Ht. by apply (split_pieces "," values). }
  destruct (check_loop_spec (includes targets) fields false w)
    as (d' & Hrun & Hd').
  assert (forall j c, dom w !! j = Some c ->
            d' !! j = Some (if String.eqb (el_name c) name
                            then set_checked (includes targets (el_value c)) c
                            else c)) as Hpoint.
  { intros j c Hc. rewrite Hd', Hc. simpl. f_equal.
    destruct (String.eqb_spec (el_name c) name) as [Hn|Hn].
    - rewrite decide_True; [done|]. apply elem_of_querySelectorAll; eauto.
    - rewrite decide_False; [done|].
      intros (c0 & Hc0 & Hn0)%elem_of_querySelectorAll. congruence. }
  assert (forall j c', d' !! j = Some c' -> el_name c' = name ->
            exists c, dom w !! j = Some c /\ el_name c = name /\
                      c' = set_checked (includes targets (el_value c)) c)
    as Hback.
  { intros j c' Hc' Hn. destruct (dom w !! j) as [c|] eqn:Hc.
    - rewrite (Hpoint j c Hc) in Hc'. injection Hc' as <-.
      destruct (String.eqb_spec (el_name c) name) as [Hn'|Hn'].
      + by exists c.
      + by exists c.
    - rewrite Hd', Hc in Hc'. done. }
  exists (existsb (fun i => includes targets (value_at (dom w) i)) fields), d'.
  split; [exact Hrun|]. split; [|split; [exact Hpoint|split; [|split]]].
  - apply same_lookup_length. intros j. rewrite Hd'.
    by rewrite fmap_is_Some.
  - intros j c' Hc' Hn. destruct (Hback j c' Hc' Hn) as (c & _ & _ & ->).
    simpl. apply includes_spec.
  - rewrite existsb_exists. split.
    + intros (i & Hi & Hsel). apply list_elem_of_In in Hi.
      apply elem_of_querySelectorAll in Hi as (c & Hc & Hn).
      exists i, (set_checked (includes targets (el_value c)) c).
      rewrite (Hpoint i c Hc). apply String.eqb_eq in Hn as Hn'. rewrite Hn'.
      split; [done|]. split; [done|]. simpl.
      unfold value_at in Hsel. by rewrite Hc in Hsel.
    + intros (j & c' & Hc' & Hn & Hchk).
      destruct (Hback j c' Hc' Hn) as (c & Hc & Hnc & ->).
      exists j. split.
      * apply list_elem_of_In, elem_of_querySelectorAll. eauto.
      * unfold value_at. by rewrite Hc.
  - intros p r nodes Hown Hkey Hval Hlook Hno.
    pose proof (lookup_field_present _ _ _ _ Hlook) as [-> _].
    unfold fill_key. rewrite Hown, Hkey, Hval. cbn [negb]. js_unfold.
    rewrite Hlook. change (includes supportedTypes "checkbox") with true.
    cbn [negb]. unfold try_body, dispatch.
    change (String.eqb "checkbox" "file") with false.
    change (String.eqb "checkbox" "checkbox") with true. cbv iota.
    js_unfold. rewrite fillCheckbox_unfold. fold fields targets.
    rewrite Hrun.
    destruct Hno as [Hno|Hno]; rewrite Hno; [done|].
    by destruct (existsb _ _).
Qed.

Lemma fillCheckbox_group_witness :
  let d := [Control "t" "checkbox" "a" false [];
            Control "t" "checkbox" "b" false [];
            Control "t" "checkbox" "c" true [];
            Control "u" "radio" "a" true []] in
  let w := World d default_settings [] in
  split "," "a,b" = ["a"; "b"] /\
  exists filled d',
    fillCheckbox (querySelectorAll d "t") "a,b" w
      = (Normal filled, with_dom d' w) /\
    filled = true /\
    d' !! 0 = Some (Control "t" "checkbox" "a" true []) /\
    d' !! 1 = Some (Control "t" "checkbox" "b" true []) /\
    d' !! 2 = Some (Control "t" "checkbox" "c" false []) /\
    d' !! 3 = Some (Control "u" "radio" "a" true []).
Proof.
  intros d w. split; [reflexivity|].
  destruct (fillCheckbox_group (Ambient None None) ∅ "t" "a,b" w)
    as (_ & filled & d' & Hrun & _ & Hpoint & _ & Hfilled & _).
  - repeat constructor; discriminate.
  - exists filled, d'. split; [exact Hrun|]. split.
    + apply Hfilled. exists 0, (Control "t" "checkbox" "a" true []).
      split; [exact (Hpoint 0 _ eq_refl)|]. split; reflexivity.
    + split; [exact (Hpoint 0 _ eq_refl)|]. split; [exact (Hpoint 1 _ eq_refl)|].
      split; [exact (Hpoint 2 _ eq_refl) | exact (Hpoint 3 _ eq_refl)].
Defined.

(** The spec's examples: [a,b] and [z] against controls valued [a], [b], [c]
    (the last one initially checked). *)
Example fillCheckbox_a_b :
  let d := [Control "t" "checkbox" "a" false []; Control "t" "checkbox" "b" false [];
            Control "t" "checkbox" "c" true []] in
  fillCheckbox [0; 1; 2] "a,b" (World d default_settings []) =
  (Normal true,
   World [Control "t" "checkbox" "a" true []; Control "t" "checkbox" "b" true [];
          Control "t" "checkbox" "c" false []] default_settings []).
Proof. reflexivity. Qed.

Example fill_checkbox_z :
  let d := [Control "t" "checkbox" "a" false []; Control "t" "checkbox" "b" false [];
            Control "t" "checkbox" "c" true []] in
  fillCheckbox (querySelectorAll d "t") "z" (World d default_settings []) =
  (Normal false,
   World [Control "t" "checkbox" "a" false []; Control "t" "checkbox" "b" false [];
          Control "t" "checkbox" "c" false []] default_settings []) /\
  fst (fill (Ambient None None) ∅ [Property "t" "z" true]
            (World d default_settings []))
  = Normal (FillResult true []).
Proof. split; reflexivity. Qed.

(** ** Frame: which controls a [fill] call can change *)

Lemma matching_shape i d1 d2 name :
  shape d1 = shape d2 -> matching i d1 name = matching i d2 name.
Proof.
  revert i d2. induction d1 as [|c1 d1 IH]; intros i [|c2 d2] H;
    try done; simpl in *.
  injection H as Hn Ht Hs. rewrite Hn, (IH (S i) d2 Hs). done.
Qed.

Lemma lookup_field_shape d1 d2 name :
  shape d1 = shape d2 -> lookup_field d1 name = lookup_field d2 name.
Proof.
  intros H. unfold lookup_field, querySelectorAll.
  rewrite (matching_shape 0 d1 d2 name H).
  destruct (matching 0 d2 name) as [|n0 l]; [done|]. f_equal.
  assert (snd <$> shape d1 !! n0 = snd <$> shape d2 !! n0) as Hty
    by (by rewrite H).
  unfold shape in Hty. rewrite !list_lookup_fmap in Hty.
  by destruct (d1 !! n0), (d2 !! n0); simplify_eq/=.
Qed.

Section Touches.

Context {A : Type} (P : nat -> Prop).

Lemma touches_ret (a : A) : touches P (ret a).
Proof. by intros w. Qed.

Lemma touches_throw e : touches P (@throw A e).
Proof. by intros w. Qed.

Lemma touches_read (proj : control -> A) dflt field :
  touches P (read proj dflt field).
Proof. by intros w. Qed.

Lemma touches_bind {B} (m : js B) (k : B -> js A) :
  touches P m -> (forall b, touches P (k b)) -> touches P (bind m k).
Proof.
  intros Hm Hk w. unfold bind. destruct (Hm w) as [Hs Hf].
  destruct (m w) as [[b|e] w1]; simpl in *; [|done].
  destruct (Hk b w1) as [Hs' Hf']. split; [congruence|].
  intros j Hj. by rewrite Hf', Hf.
Qed.

Lemma touches_try_catch (m : js A) (h : thrown -> js A) :
  touches P m -> (forall e, touches P (h e)) -> touches P (try_catch m h).
Proof.
  intros Hm Hh w. unfold try_catch. destruct (Hm w) as [Hs Hf].
  destruct (m w) as [[a|e] w1]; simpl in *; [done|].
  destruct (Hh e w1) as [Hs' Hf']. split; [congruence|].
  intros j Hj. by rewrite Hf', Hf.
Qed.

Lemma touches_for_of {X} (xs : list X) (body : X -> A -> js A) s :
  (forall x s', x ∈ xs -> touches P (body x s')) ->
  touches P (for_of xs body s).
Proof.
  revert s. induction xs as [|x xs IH]; intros s Hbody; simpl.
  - apply touches_ret.
  - apply touches_bind; [apply Hbody; left|].
    intros s'. apply IH. intros y s'' Hy. apply Hbody. by right.
Qed.

End Touches.

Lemma touches_read_setting P name : touches P (read_setting name).
Proof. by intros w. Qed.

Lemma touches_emit P e : touches P (emit e).
Proof. by intros w. Qed.

Lemma touches_getInputField P name : touches P (getInputField name).
Proof. by intros w. Qed.

Lemma touches_run P u : dom_inert u -> touches P (run u).
Proof.
  intros Hu w. unfold run. rewrite Hu.
  by destruct (ef_thrown (u (dom w))).
Qed.

Lemma touches_write (P : nat -> Prop) upd field :
  (forall c, el_name (upd c) = el_name c /\ el_type (upd c) = el_type c) ->
  P field -> touches P (write upd field).
Proof.
  intros Hupd HP w. unfold write; simpl. split.
  - unfold shape. rewrite (list_fmap_alter _ upd id).
    + by apply list_alter_id.
    + apply Forall_forall. intros c _. by destruct (Hupd c) as [-> ->].
  - intros j Hj. apply list_lookup_alter_ne. by intros ->.
Qed.

Lemma touches_set_value (P : nat -> Prop) v field :
  P field -> touches P (write (set_value v) field).
Proof. apply touches_write. by intros []. Qed.

Lemma touches_set_checked (P : nat -> Prop) b field :
  P field -> touches P (write (set_checked b) field).
Proof. apply touches_write. by intros []. Qed.

Create HintDb touches.
#[local] Hint Resolve touches_ret touches_throw touches_read
  touches_read_setting touches_emit touches_getInputField : touches.

Ltac touches_step :=
  match goal with
  | |- touches _ (bind _ _) => apply touches_bind; [|intros ?]
  | |- touches _ (try_catch _ _) => apply touches_try_catch; [|intros ?]
  | |- touches _ (if ?b then _ else _) => destruct b
  | |- touches _ (match ?o with Some _ => _ | None => _ end) => destruct o
  | |- touches _ _ => solve [auto with touches]
  end.

Lemma touches_check_loop type nodes sel :
  type = "checkbox" \/ type = "radio" ->
  touches (targets_of type nodes) (for_of nodes (check_body sel) false).
Proof.
  intros Hty. apply touches_for_of. intros field acc Hfield.
  unfold check_body. repeat touches_step.
  apply touches_set_checked. right. by split.
Qed.

Lemma touches_dispatch env type nodes value :
  (forall trigger n, jQuery env = Some trigger -> dom_inert (trigger n)) ->
  touches (targets_of type nodes) (dispatch env type nodes value).
Proof.
  intros Hjq. unfold dispatch.
  destruct (String.eqb_spec type "file").
  { unfold fillFile. repeat touches_step. }
  destruct (String.eqb_spec type "checkbox").
  { rewrite fillCheckbox_unfold. apply touches_check_loop. by left. }
  destruct (String.eqb_spec type "radio").
  { rewrite fillRadio_unfold. apply touches_check_loop. by right. }
  destruct (String.eqb_spec type "select-one").
  { unfold fillSelect, read_global_key.
    destruct (jQuery env) as [trigger|] eqn:Htr.
    - repeat touches_step; try (apply touches_set_value; by left).
      apply touches_run. by apply Hjq.
    - repeat touches_step; apply touches_set_value; by left. }
  unfold fillField. repeat touches_step. apply touches_set_value. by left.
Qed.

Lemma touches_try_body env cbs type nodes value :
  inert env cbs ->
  touches (targets_of type nodes) (try_body env cbs type nodes value).
Proof.
  intros [Hjq Hcb]. unfold try_body.
  apply touches_bind; [by apply touches_dispatch|]. intros filled.
  destruct (cbs !! type) as [fn|] eqn:Hfn; repeat touches_step.
  apply touches_run. by eapply Hcb.
Qed.

Lemma may_change_shape d1 d2 k j :
  shape d1 = shape d2 -> may_change d1 k j <-> may_change d2 k j.
Proof. intros H. unfold may_change. by rewrite (lookup_field_shape d1 d2 k H). Qed.

Lemma fill_key_frame env cbs p r w :
  inert env cbs ->
  shape (dom (fill_key env cbs p r w).2) = shape (dom w) /\
  forall j, ~ (p_own p = true /\ may_change (dom w) (p_key p) j) ->
            dom (fill_key env cbs p r w).2 !! j = dom w !! j.
Proof.
  intros Hinert.
  enough (forall w', (fill_key env cbs p r w).2 = w' ->
            shape (dom w') = shape (dom w) /\
            forall j, ~ (p_own p = true /\ may_change (dom w) (p_key p) j) ->
                      dom w' !! j = dom w !! j) by eauto.
  intros w' Hw'. unfold fill_key in Hw'.
  destruct (p_own p); cbn [negb] in Hw'; [|by subst w'].
  unfold bind at 1 in Hw'. unfold getInputField at 1 in Hw'.
  cbv beta iota in Hw'.
  destruct (lookup_field (dom w) (p_key p)) as [|type nodes] eqn:Hlook.
  - js_unfold. destruct (enabled _ _); by subst w'.
  - destruct (includes supportedTypes type); cbn [negb] in Hw'.
    + assert (touches (targets_of type nodes)
        (try_catch
           (try_body env cbs type nodes (p_value p) ;; ret r)
           (fun error => emit (ConsoleError error) ;; ret (record error r))))
        as Ht.
      { repeat touches_step. by apply touches_try_body. }
      destruct (Ht w) as [Hs Hf]. rewrite Hw' in Hs, Hf. split; [exact Hs|].
      intros j Hj. apply Hf. intros Htgt. apply Hj. split; [done|].
      by exists type, nodes.
    + js_unfold. destruct (enabled _ _); by subst w'.
Qed.

Lemma fill_loop_frame env cbs data r w :
  inert env cbs ->
  shape (dom (for_of data (fill_key env cbs) r w).2) = shape (dom w) /\
  forall j,
    ~ (exists p, p ∈ data /\ p_own p = true /\
                 may_change (dom w) (p_key p) j) ->
    dom (for_of data (fill_key env cbs) r w).2 !! j = dom w !! j.
Proof.
  intros Hinert. revert r w.
  induction data as [|p data IH]; intros r w; [done|].
  cbn [for_of]. unfold bind.
  destruct (fill_key_frame env cbs p r w Hinert) as [Hs1 Hf1].
  destruct (fill_key_normal env cbs p r w) as (r1 & w1 & Hkey).
  rewrite Hkey in *. simpl in Hs1, Hf1.
  destruct (IH r1 w1) as [Hs Hf]. split; [congruence|].
  intros j Hj. rewrite Hf, Hf1; [done| |].
  - intros [Hown Hmay]. apply Hj. exists p. split; [left|done].
  - intros (q & Hq & Hown & Hmay). apply Hj. exists q.
    split; [by right|]. split; [done|].
    by apply (may_change_shape (dom w1) (dom w)).
Qed.

(** C10 (amended): a [fill] call that returns, made with plain keys and
    with registered callbacks and jQuery handlers that do not themselves
    rewrite the form, leaves unchanged every control whose name is not an own
    key of the data, and, in a group whose resolved type is neither
    [checkbox] nor [radio], every control but the first matched one. *)
Theorem fill_frame env cbs data w r w' j c :
  inert env cbs ->
  Forall (fun p => p_own p = true -> plain (p_key p) = true) data ->
  fill env cbs data w = (Normal r, w') ->
  dom w !! j = Some c ->
  (forall p, p ∈ data -> p_own p = true -> p_key p <> el_name c) \/
  (exists type nodes,
     lookup_field (dom w) (el_name c) = Present type nodes /\
     type <> "checkbox" /\ type <> "radio" /\ j <> item0 nodes) ->
  dom w' !! j = Some c.
Proof.
  intros Hinert _ Hfill Hc Hcond.
  destruct (fill_loop_frame env cbs data (FillResult true []) w Hinert)
    as [_ Hf].
  unfold fill in Hfill. rewrite Hfill in Hf. simpl in Hf.
  rewrite Hf; [done|].
  intros (p & Hp & Hown & type & nodes & Hlook & Htgt).
  assert (el_name c = p_key p) as Hname.
  { pose proof (lookup_field_present _ _ _ _ Hlook) as (Hq & c0 & Hc0 & Hn & _).
    destruct Htgt as [->|[_ Hin]]; [congruence|].
    rewrite Hq in Hin. apply elem_of_querySelectorAll in Hin as (c1 & ? & ?).
    congruence. }
  destruct Hcond as [Hnot|(type' & nodes' & Hlook' & Hcb & Hrd & Hfirst)].
  - by apply (Hnot p).
  - rewrite Hname, Hlook in Hlook'. injection Hlook' as <- <-.
    destruct Htgt as [?|[[?|?] _]]; done.
Qed.

Lemma fill_frame_witness :
  let fn := fun (_ : nat) (_ : string) (f : list control) =>
              Effect f [("strict", false)] None in
  let first := Control "a" "text" "old" false [] in
  let second := Control "a" "text" "other" false [] in
  let w := World [first; second] default_settings [] in
  let out := fill (Ambient None None) {["text" := fn]}
                  [Property "a" "new" true] w in
  dom out.2 !! 1 = Some second.
Proof.
  intros fn first second w out.
  apply (fill_frame (Ambient None None) {["text" := fn]}
           [Property "a" "new" true] w (FillResult true []) out.2 1 second).
  - split.
    + intros trigger n H. discriminate.
    + intros type g n v H f. apply lookup_singleton_Some in H as [_ <-].
      reflexivity.
  - repeat constructor.
  - reflexivity.
  - reflexivity.
  - right. exists "text", [0; 1]. repeat split; discriminate.
Defined.

(** C10 as stated, without the condition on user code: a callback
    registered for [text] that copies the value it receives into the second
    control of the form runs inside the [fill] call. With [{a: 'new'}] the
    control named [b], whose name is not a key of the data, is changed by
    the time [fill] returns. *)
Lemma fill_callback_rewrites_other_control :
  let copy := fun (_ : nat) (v : string) (f : list control) =>
                Effect (alter (set_value v) 1 f) [] None in
  let a := Control "a" "text" "" false [] in
  let b := Control "b" "text" "" false [] in
  let w := World [a; b] default_settings [] in
  let data := [Property "a" "new" true] in
  let out := fill (Ambient None None) {["text" := copy]} data w in
  out.1 = Normal (FillResult true []) /\
  (forall p, p ∈ data -> p_own p = true -> p_key p <> el_name b) /\
  dom w !! 1 = Some b /\
  dom out.2 !! 1 = Some (Control "b" "text" "new" false []) /\
  dom out.2 !! 1 <> Some b.
Proof.
  intros copy a b w data out. repeat split; [|discriminate].
  intros p Hp _. apply list_elem_of_singleton in Hp as ->. discriminate.
Qed.

(** The same call, evaluated: only the first control named [a] is written,
    and the callback's [setting('strict', false)] has taken effect. *)
Example fill_first_control_only :
  let fn := fun (_ : nat) (_ : string) (f : list control) =>
              Effect f [("strict", false)] None in
  let w := World [Control "a" "text" "old" false [];
                  Control "a" "text" "other" false []] default_settings [] in
  let out := fill (Ambient None None) {["text" := fn]}
                  [Property "a" "new" true] w in
  out.1 = Normal (FillResult true []) /\
  dom out.2 = [Control "a" "text" "new" false [];
               Control "a" "text" "other" false []] /\
  trace out.2 = [CallbackCall "text" 0 "new"] /\
  enabled (settings out.2) "throwOnFileError" = false.
Proof. repeat split. Qed.

(** [split] on the inputs the README and the spec mention. *)
Example split_examples :
  split "," "a,b" = ["a"; "b"] /\ split "," "z" = ["z"] /\
  split "," "" = [""] /\ split "," "a,,b," = ["a"; ""; "b"; ""].
Proof. repeat split. Qed.

(** * Further properties of the closure's functions *)

(** ** [getInputField] *)

Lemma matching_sorted i f name : StronglySorted lt (matching i f name).
Proof.
  revert i. induction f as [|c f IH]; intros i; simpl; [constructor|].
  destruct (String.eqb (el_name c) name); [|apply IH].
  constructor; [apply IH|]. apply Forall_forall. intros j Hj.
  apply elem_of_matching in Hj as (c' & Hle & _). lia.
Qed.

(** ** [fillRadio] and [fillCheckbox] *)

(** The shared loop on the group of a name. *)
Lemma check_group sel name w :
  let fields := querySelectorAll (dom w) name in
  exists d',
    for_of fields (check_body sel) false w =
      (Normal (existsb (fun i => sel (value_at (dom w) i)) fields),
       with_dom d' w) /\
    length d' = length (dom w) /\
    (forall j c, dom w !! j = Some c ->
       d' !! j = Some (if String.eqb (el_name c) name
                       then set_checked (sel (el_value c)) c else c)) /\
    (forall j c', d' !! j = Some c' -> el_name c' = name ->
       exists c, dom w !! j = Some c /\ el_name c = name /\
                 c' = set_checked (sel (el_value c)) c).
Proof.
  intros fields.
  destruct (check_loop_spec sel fields false w) as (d' & Hrun & Hd').
  assert (forall j c, dom w !! j = Some c ->
            d' !! j = Some (if String.eqb (el_name c) name
                            then set_checked (sel (el_value c)) c else c))
    as Hpoint.
  { intros j c Hc. rewrite Hd', Hc. simpl. f_equal.
    destruct (String.eqb_spec (el_name c) name) as [Hn|Hn].
    - rewrite decide_True; [done|]. apply elem_of_querySelectorAll; eauto.
    - rewrite decide_False; [done|].
      intros (c0 & Hc0 & Hn0)%elem_of_querySelectorAll. congruence. }
  exists d'. split; [exact Hrun|]. split; [|split; [exact Hpoint|]].
  - apply same_lookup_length. intros j. rewrite Hd'. by rewrite fmap_is_Some.
  - intros j c' Hc' Hn. destruct (dom w !! j) as [c|] eqn:Hc.
    + rewrite (Hpoint j c Hc) in Hc'. injection Hc' as <-. exists c.
      by destruct (String.eqb_spec (el_name c) name).
    + rewrite Hd', Hc in Hc'. done.
Qed.

(** X2: on a group of radio buttons named [name] of which at most one
    carries the incoming value, the radio strategy completes normally, sets
    [checked] on each control of the group to whether its own value equals
    the incoming value (every other control and property is left alone),
    leaves at most one control of the group checked, and reports
    [filled = true] exactly when some control of the group ends up checked. *)
Theorem fillRadio_group name value w :
  Forall (fun c => el_name c = name -> el_type c = "radio") (dom w) ->
  (forall i j ci cj,
     dom w !! i = Some ci -> dom w !! j = Some cj ->
     el_name ci = name -> el_name cj = name ->
     el_value ci = value -> el_value cj = value -> i = j) ->
  let fields := querySelectorAll (dom w) name in
  exists filled d',
    fillRadio fields value w = (Normal filled, with_dom d' w) /\
    length d' = length (dom w) /\
    (forall j c, dom w !! j = Some c ->
       d' !! j = Some (if String.eqb (el_name c) name
                       then set_checked (String.eqb value (el_value c)) c
                       else c)) /\
    (forall j c', d' !! j = Some c' -> el_name c' = name ->
       (el_checked c' = true <-> el_value c' = value)) /\
    (forall i j ci cj,
       d' !! i = Some ci -> d' !! j = Some cj ->
       el_name ci = name -> el_name cj = name ->
       el_checked ci = true -> el_checked cj = true -> i = j) /\
    (filled = true <->
     exists j c', d' !! j = Some c' /\ el_name c' = name /\
                  el_checked c' = true).
Proof.
  intros _ Hone fields.
  destruct (check_group (String.eqb value) name w)
    as (d' & Hrun & Hlen & Hpoint & Hback).
  eexists _, d'. split; [exact Hrun|]. split; [exact Hlen|].
  split; [exact Hpoint|]. split; [|split].
  - intros j c' Hc' Hn. destruct (Hback j c' Hc' Hn) as (c & _ & _ & ->).
    simpl. rewrite String.eqb_eq. split; congruence.
  - intros i j ci cj Hi Hj Hni Hnj Hci Hcj.
    destruct (Hback i ci Hi Hni) as (ci0 & Hi0 & Hni0 & ->).
    destruct (Hback j cj Hj Hnj) as (cj0 & Hj0 & Hnj0 & ->).
    simpl in Hci, Hcj. apply String.eqb_eq in Hci, Hcj.
    by apply (Hone i j ci0 cj0).
  - rewrite existsb_exists. split.
    + intros (i & Hi & Hsel). apply list_elem_of_In in Hi.
      apply elem_of_querySelectorAll in Hi as (c & Hc & Hn).
      exists i, (set_checked (String.eqb value (el_value c)) c).
      rewrite (Hpoint i c Hc). apply String.eqb_eq in Hn as Hn'. rewrite Hn'.
      split; [done|]. split; [done|]. simpl.
      unfold value_at in Hsel. by rewrite Hc in Hsel.
    + intros (j & c' & Hc' & Hn & Hchk).
      destruct (Hback j c' Hc' Hn) as (c & Hc & Hnc & ->).
      exists j. split.
      * apply list_elem_of_In, elem_of_querySelectorAll. eauto.
      * unfold value_at. by rewrite Hc.
Qed.

Lemma fillRadio_group_witness :
  let d := [Control "g" "radio" "a" true [];
            Control "g" "radio" "b" false [];
            Control "h" "radio" "b" true []] in
  let w := World d default_settings [] in
  exists filled d',
    fillRadio (querySelectorAll d "g") "b" w = (Normal filled, with_dom d' w) /\
    filled = true /\
    d' !! 0 = Some (Control "g" "radio" "a" false []) /\
    d' !! 1 = Some (Control "g" "radio" "b" true []) /\
    d' !! 2 = Some (Control "h" "radio" "b" true []).
Proof.
  intros d w.
  destruct (fillRadio_group "g" "b" w)
    as (filled & d' & Hrun & _ & Hpoint & _ & _ & Hfilled).
  - repeat constructor; discriminate.
  - intros [|[|[|i]]] [|[|[|j]]] ci cj Hi Hj; simpl in Hi, Hj;
      try discriminate; try reflexivity;
      injection Hi as <-; injection Hj as <-; discriminate.
  - exists filled, d'. split; [exact Hrun|]. split.
    + apply Hfilled. exists 1, (Control "g" "radio" "b" true []).
      split; [exact (Hpoint 1 _ eq_refl)|]. split; reflexivity.
    + split; [exact (Hpoint 0 _ eq_refl)|].
      split; [exact (Hpoint 1 _ eq_refl) | exact (Hpoint 2 _ eq_refl)].
Defined.

(** A string without the separator is its own single piece. *)
Lemma split_whole sep s : contains sep s = false -> split sep s = [s].
Proof.
  induction s as [|c s IH]; simpl; [done|].
  intros [Hc Hs]%orb_false_elim. by rewrite Hc, (IH Hs).
Qed.

(** X3: a control whose own value contains a comma can never be selected
    through [fillCheckbox]: whatever the incoming value, the control ends up
    unchecked. *)
Theorem fillCheckbox_comma_value name values w j c filled w' :
  dom w !! j = Some c ->
  el_name c = name ->
  contains "," (el_value c) = true ->
  fillCheckbox (querySelectorAll (dom w) name) values w = (Normal filled, w') ->
  dom w' !! j = Some (set_checked false c).
Proof.
  intros Hc Hname Hcomma Hrun.
  destruct (check_group (includes (split "," values)) name w)
    as (d' & Hrun' & _ & Hpoint & _).
  rewrite fillCheckbox_unfold, Hrun' in Hrun. injection Hrun as _ <-.
  simpl. rewrite (Hpoint j c Hc).
  apply String.eqb_eq in Hname. rewrite Hname. do 2 f_equal.
  destruct (includes (split "," values) (el_value c)) eqn:Hin; [|done].
  apply includes_spec, split_pieces in Hin. congruence.
Qed.

Lemma fillCheckbox_comma_value_witness :
  dom (fillCheckbox [0; 1] "a,b"
         (World [Control "t" "checkbox" "a,b" true [];
                 Control "t" "checkbox" "b" false []] default_settings [])).2
  !! 0 = Some (Control "t" "checkbox" "a,b" false []).
Proof.
  apply (fillCheckbox_comma_value "t" "a,b"
           (World [Control "t" "checkbox" "a,b" true [];
                   Control "t" "checkbox" "b" false []] default_settings [])
           0 (Control "t" "checkbox" "a,b" true []) true); reflexivity.
Defined.

Lemma for_of_ext {A S} (xs : list A) (body1 body2 : A -> S -> js S) s w :
  (forall x s' w', body1 x s' w' = body2 x s' w') ->
  for_of xs body1 s w = for_of xs body2 s w.
Proof.
  intros H. revert s w. induction xs as [|x xs IH]; intros s w; simpl; [done|].
  unfold bind. rewrite H. destruct (body2 x s w) as [[s'|e] w']; [apply IH|done].
Qed.

(** X4: for an incoming value without a comma, the checkbox strategy and the
    radio strategy do the same thing on any node list. *)
Theorem fillCheckbox_single_value fields value w :
  contains "," value = false ->
  fillCheckbox fields value w = fillRadio fields value w.
Proof.
  intros Hv. unfold fillCheckbox, fillRadio. rewrite (split_whole _ _ Hv).
  apply for_of_ext. intros field acc w0. js_unfold.
  unfold includes. simpl. rewrite orb_false_r.
  by rewrite (String.eqb_sym _ value).
Qed.

Lemma fillCheckbox_single_value_witness :
  let w := World [Control "t" "checkbox" "a" false [];
                  Control "t" "checkbox" "b" true []] default_settings [] in
  fillCheckbox [0; 1] "a" w = fillRadio [0; 1] "a" w.
Proof. intros w. apply fillCheckbox_single_value. reflexivity. Defined.

(** ** [fillField] and the valid case of [fillSelect] *)

Lemma dispatch_generic env type nodes v w :
  type <> "file" -> type <> "checkbox" -> type <> "radio" ->
  type <> "select-one" ->
  dispatch env type nodes v w =
    (Normal true, with_dom (alter (set_value v) (item0 nodes) (dom w)) w).
Proof.
  intros H1 H2 H3 H4. unfold dispatch.
  destruct (String.eqb_spec type "file"); [done|].
  destruct (String.eqb_spec type "checkbox"); [done|].
  destruct (String.eqb_spec type "radio"); [done|].
  destruct (String.eqb_spec type "select-one"); [done|].
  reflexivity.
Qed.

Lemma fill_key_supported env cbs p r w type nodes :
  p_own p = true ->
  lookup_field (dom w) (p_key p) = Present type nodes ->
  includes supportedTypes type = true ->
  fill_key env cbs p r w =
    match try_body env cbs type nodes (p_value p) w with
    | (Normal _, w') => (Normal r, w')
    | (Throw e, w') => (Normal (record e r), log (ConsoleError e) w')
    end.
Proof.
  intros Hown Hlook Hsup. unfold fill_key. rewrite Hown. cbn [negb].
  js_unfold. rewrite Hlook, Hsup. cbn [negb].
  by destruct (try_body env cbs type nodes (p_value p) w) as [[[]|e] w'].
Qed.

(** The types of [stores_raw] are supported and take the default branch
    of the [switch]. *)
Lemma stores_raw_generic type v :
  stores_raw type v = true ->
  includes supportedTypes type = true /\
  type <> "file" /\ type <> "checkbox" /\ type <> "radio" /\
  type <> "select-one".
Proof.
  unfold stores_raw. intros H. apply orb_true_iff in H as [H|H].
  - apply String.eqb_eq in H as ->. repeat split; discriminate.
  - apply andb_true_iff in H as [H _]. apply andb_true_iff in H as [H _].
    apply includes_spec in H.
    repeat (apply elem_of_cons in H as [->|H];
            [repeat split; discriminate|]).
    by apply elem_of_nil in H.
Qed.

(** X5: for a [hidden] input, and for a [text], [search], [tel] or
    [password] input given a value without line breaks, the strategy never
    fails: it assigns the value to the first matched control, so that
    reading the control's value back gives that value, touches no other
    control, and reports the field filled; without a callback for the type,
    the iteration of [fill] records nothing. *)
Theorem fill_generic_field env cbs p r w type nodes :
  p_own p = true ->
  lookup_field (dom w) (p_key p) = Present type nodes ->
  stores_raw type (p_value p) = true ->
  let w1 := with_dom (alter (set_value (p_value p)) (item0 nodes) (dom w)) w in
  dispatch env type nodes (p_value p) w = (Normal true, w1) /\
  value_at (dom w1) (item0 nodes) = p_value p /\
  (forall j, j <> item0 nodes -> dom w1 !! j = dom w !! j) /\
  (cbs !! type = None -> fill_key env cbs p r w = (Normal r, w1)).
Proof.
  intros Hown Hlook Hraw w1.
  destruct (stores_raw_generic _ _ Hraw) as (Hsup & H1 & H2 & H3 & H4).
  pose proof (dispatch_generic env type nodes (p_value p) w H1 H2 H3 H4)
    as Hd. fold w1 in Hd.
  pose proof (lookup_field_present _ _ _ _ Hlook) as (_ & c & Hc & _).
  split; [exact Hd|]. split; [|split].
  - unfold value_at, w1. simpl. by rewrite list_lookup_alter_eq, Hc.
  - intros j Hj. unfold w1. simpl. by rewrite list_lookup_alter_ne.
  - intros Hcb. rewrite (fill_key_supported env cbs p r w type nodes) by done.
    unfold try_body. js_unfold. by rewrite Hd, Hcb.
Qed.

Lemma fill_generic_field_witness :
  let w := World [Control "user" "text" "" false [];
                  Control "user" "text" "" false []] default_settings [] in
  fill_key (Ambient None None) ∅ (Property "user" "john_doe" true)
           (FillResult true []) w
  = (Normal (FillResult true []),
     World [Control "user" "text" "john_doe" false [];
            Control "user" "text" "" false []] default_settings []).
Proof.
  intros w.
  destruct (fill_generic_field (Ambient None None) ∅
              (Property "user" "john_doe" true) (FillResult true [])
              w "text" [0; 1] eq_refl eq_refl eq_refl) as (_ & _ & _ & H).
  exact (H eq_refl).
Defined.

Lemma option_present (value : string) (options : list string) :
  value ∈ options ->
  existsb (fun opt => String.eqb opt value) options = true.
Proof.
  intros H. apply existsb_exists. exists value.
  split; [by apply list_elem_of_In | apply String.eqb_refl].
Qed.

(** X6: when [window.jQuery] is not defined as the closure is created, a
    key that resolves to a [select-one] field and a value that is one of the
    first control's option values have the value assigned to that control;
    nothing else happens, no [change] trigger is made, and the field is
    reported filled. *)
Theorem fill_select_valid_option env cbs p r w nodes c :
  jQuery env = None ->
  p_own p = true ->
  lookup_field (dom w) (p_key p) = Present "select-one" nodes ->
  dom w !! item0 nodes = Some c ->
  p_value p ∈ el_options c ->
  let field := item0 nodes in
  let w1 := with_dom (alter (set_value (p_value p)) field (dom w)) w in
  dom w1 !! field = Some (set_value (p_value p) c) /\
  trace w1 = trace w /\
  dispatch env "select-one" nodes (p_value p) w = (Normal true, w1) /\
  (cbs !! "select-one" = None ->
   fill_key env cbs p r w = (Normal r, w1)).
Proof.
  intros Hjq Hown Hlook Hc Hopt field w1.
  assert (dispatch env "select-one" nodes (p_value p) w = (Normal true, w1))
    as Hd.
  { unfold dispatch.
    change (String.eqb "select-one" "file") with false.
    change (String.eqb "select-one" "checkbox") with false.
    change (String.eqb "select-one" "radio") with false.
    change (String.eqb "select-one" "select-one") with true. cbv iota.
    unfold fillSelect. js_unfold. rewrite Hc. simpl.
    rewrite (option_present _ _ Hopt). cbn [negb]. by rewrite Hjq. }
  split; [|split; [done|split; [exact Hd|]]].
  - unfold w1, field. simpl. by rewrite list_lookup_alter_eq, Hc.
  - intros Hcb.
    rewrite (fill_key_supported _ cbs p r w "select-one" nodes) by done.
    unfold try_body. js_unfold. by rewrite Hd, Hcb.
Qed.

Lemma fill_select_valid_option_witness :
  let w := World [Control "country" "select-one" "US" false ["US"; "FR"]]
                 default_settings [] in
  fill_key (Ambient None None) ∅ (Property "country" "FR" true)
           (FillResult true []) w
  = (Normal (FillResult true []),
     World [Control "country" "select-one" "FR" false ["US"; "FR"]]
           default_settings []).
Proof.
  intros w.
  assert ("FR" ∈ ["US"; "FR"]) as Hopt by (right; left).
  destruct (fill_select_valid_option (Ambient None None) ∅
              (Property "country" "FR" true) (FillResult true []) w [0]
              (Control "country" "select-one" "US" false ["US"; "FR"])
              eq_refl eq_refl eq_refl eq_refl Hopt) as (_ & _ & _ & H).
  exact (H eq_refl).
Defined.

(** A select with jQuery present: the trigger is recorded after the
    assignment. *)
Example fill_select_triggers_change :
  let env := Ambient (Some (fun _ f => Effect f [] None)) None in
  let w := World [Control "country" "select-one" "US" false ["US"; "FR"]]
                 default_settings [] in
  let out := fill env ∅ [Property "country" "FR" true] w in
  out.1 = Normal (FillResult true []) /\
  trace out.2 = [TriggerChange 0] /\ value_at (dom out.2) 0 = "FR".
Proof. repeat split. Qed.

(** ** Unsupported types *)

(** X7: an own key whose field has a type outside the supported list
    records exactly one error, [Field '<key>' type not supported], and sets
    [success] to [false]; no control and no setting is changed, no callback
    is called even if one is registered for that type, and the console gets
    the error only if [throwOnUnsupportedType] is enabled. *)
Theorem fill_unsupported_field env cbs p r w type nodes :
  p_own p = true ->
  lookup_field (dom w) (p_key p) = Present type nodes ->
  includes supportedTypes type = false ->
  let error := Text ("Field '" +:+ p_key p +:+ "' type not supported") in
  exists w',
    fill_key env cbs p r w =
      (Normal (FillResult false (errors r ++ [error])), w') /\
    dom w' = dom w /\ settings w' = settings w /\
    trace w' = (trace w ++
                if enabled (settings w) "throwOnUnsupportedType"
                then [ConsoleError error] else [])%list.
Proof.
  intros Hown Hlook Hsup error.
  rewrite (fill_unsupported_type env cbs p r w type nodes) by done.
  cbv zeta. fold error. eexists. split; [reflexivity|].
  destruct (enabled _ _); simpl; [done|]. by rewrite app_nil_r.
Qed.

Lemma fill_unsupported_field_witness :
  let fn := fun (_ : nat) (_ : string) (f : list control) =>
              Effect [] [] (Some (ErrorObject "never")) in
  let w := World [Control "bio" "textarea" "" false []] default_settings [] in
  let error := Text "Field 'bio' type not supported" in
  exists w',
    fill_key (Ambient None None) {["textarea" := fn]}
             (Property "bio" "hello" true) (FillResult true []) w
    = (Normal (FillResult false [error]), w') /\
    dom w' = dom w /\ settings w' = settings w /\
    trace w' = [ConsoleError error].
Proof.
  intros fn w error.
  apply (fill_unsupported_field (Ambient None None) {["textarea" := fn]}
           (Property "bio" "hello" true) (FillResult true []) w
           "textarea" [0]); reflexivity.
Defined.

(** ** [callbackAfterFill] *)

(** X8: registration followed by a fill. Registering a function for the
    type of a [hidden] input, or of a [text], [search], [tel] or [password]
    input, succeeds and replaces whatever was registered for that type; the
    next iteration of [fill] on a field of that type, with a value that the
    input keeps as it is, assigns the value and then calls the function
    exactly once, with the first matched control and the value, on the form
    that already holds the value. Passing anything but a function throws and
    leaves the registry as it was. *)
Theorem callbackAfterFill_then_fill env cbs p r w type nodes fn :
  p_own p = true ->
  lookup_field (dom w) (p_key p) = Present type nodes ->
  stores_raw type (p_value p) = true ->
  let registered := callbackAfterFill type (Function fn) cbs in
  let field := item0 nodes in
  let w1 := with_dom (alter (set_value (p_value p)) field (dom w)) w in
  let o := fn field (p_value p) (dom w1) in
  let w2 := World (ef_form o)
                  (apply_setting_calls (ef_setting_calls o) (settings w))
                  (trace w ++ [CallbackCall type field (p_value p)]) in
  registered.1 = Normal tt /\
  fill_key env registered.2 p r w =
    match ef_thrown o with
    | Some e => (Normal (FillResult false (errors r ++ [e])),
                 log (ConsoleError e) w2)
    | None => (Normal r, w2)
    end /\
  callbackAfterFill type NotFunction cbs =
    (Throw (ErrorObject "Callback must be a function"), cbs).
Proof.
  intros Hown Hlook Hraw registered field w1 o w2.
  destruct (stores_raw_generic _ _ Hraw) as (Hsup & H1 & H2 & H3 & H4).
  split; [done|]. split; [|done].
  rewrite (fill_key_supported env _ p r w type nodes) by done.
  unfold try_body. js_unfold.
  rewrite (dispatch_generic env type nodes (p_value p) w H1 H2 H3 H4).
  unfold registered. simpl. rewrite lookup_insert_eq.
  unfold run, log, w2, o, w1, field. simpl.
  by destruct (ef_thrown _).
Qed.

Lemma callbackAfterFill_then_fill_witness :
  let old := fun (_ : nat) (_ : string) (f : list control) =>
               Effect f [] (Some (ErrorObject "old callback")) in
  let fn := fun (n : nat) (v : string) (f : list control) =>
              Effect f [("throwOnFileError", false)] None in
  let w := World [Control "user" "text" "" false []] default_settings [] in
  fill_key (Ambient None None)
           (callbackAfterFill "text" (Function fn) {["text" := old]}).2
           (Property "user" "john_doe" true) (FillResult true []) w
  = (Normal (FillResult true []),
     World [Control "user" "text" "john_doe" false []]
           (setting "throwOnFileError" false default_settings)
           [CallbackCall "text" 0 "john_doe"]).
Proof.
  intros old fn w.
  destruct (callbackAfterFill_then_fill (Ambient None None) {["text" := old]}
              (Property "user" "john_doe" true) (FillResult true []) w
              "text" [0] fn eq_refl eq_refl eq_refl) as (_ & H & _).
  exact H.
Defined.

Lemma try_body_callbacks_ext env cbs1 cbs2 type nodes v w :
  cbs1 !! type = cbs2 !! type ->
  try_body env cbs1 type nodes v w = try_body env cbs2 type nodes v w.
Proof.
  intros H. unfold try_body, bind.
  destruct (dispatch env type nodes v w) as [[[]|e] w']; [|done..].
  by rewrite H.
Qed.

(** [fill] consults [callbacks] at the supported types only. *)
Lemma fill_callbacks_ext env cbs1 cbs2 data w :
  (forall t, includes supportedTypes t = true -> cbs1 !! t = cbs2 !! t) ->
  fill env cbs1 data w = fill env cbs2 data w.
Proof.
  intros H. unfold fill. apply for_of_ext. intros p r w0.
  destruct (p_own p) eqn:Hown.
  - destruct (lookup_field (dom w0) (p_key p)) as [|type nodes] eqn:Hlook.
    + unfold fill_key. rewrite Hown. cbn [negb]. js_unfold. by rewrite Hlook.
    + destruct (includes supportedTypes type) eqn:Hsup.
      * rewrite !(fill_key_supported _ _ p r w0 type nodes) by done.
        by rewrite (try_body_callbacks_ext env cbs1 cbs2) by auto.
      * by rewrite !(fill_unsupported_type _ _ p r w0 type nodes).
  - unfold fill_key. by rewrite Hown.
Qed.

(** X9: a callback registered for a type outside the supported list is
    accepted but never called: [fill] behaves exactly as without it. *)
Theorem callback_for_unsupported_type env cbs type fn data w :
  includes supportedTypes type = false ->
  fill env (callbackAfterFill type (Function fn) cbs).2 data w =
  fill env cbs data w.
Proof.
  intros Hty. apply fill_callbacks_ext. intros t Ht. simpl.
  apply lookup_insert_ne. congruence.
Qed.

Lemma callback_for_unsupported_type_witness :
  let fn := fun (_ : nat) (_ : string) (f : list control) =>
              Effect [] [] (Some (ErrorObject "never")) in
  let w := World [Control "bio" "textarea" "" false [];
                  Control "user" "text" "" false []] default_settings [] in
  let data := [Property "bio" "x" true; Property "user" "y" true] in
  fill (Ambient None None)
       (callbackAfterFill "textarea" (Function fn) ∅).2 data w
  = fill (Ambient None None) ∅ data w.
Proof.
  intros fn w data. by apply callback_for_unsupported_type.
Defined.

(** ** The loop of [fill] *)

Lemma merge_results_fresh r : merge_results r (FillResult true []) = r.
Proof.
  destruct r. unfold merge_results. simpl.
  by rewrite andb_true_r, app_nil_r.
Qed.

Lemma merge_results_record r e :
  merge_results r (record e (FillResult true [])) = record e r.
Proof. unfold merge_results, record. simpl. by rewrite andb_false_r. Qed.

Lemma merge_results_assoc r1 r2 r3 :
  merge_results (merge_results r1 r2) r3 =
  merge_results r1 (merge_results r2 r3).
Proof.
  unfold merge_results. simpl. by rewrite andb_assoc, app_assoc.
Qed.

Lemma fill_key_absent env cbs p r w :
  p_own p = true ->
  lookup_field (dom w) (p_key p) = Absent ->
  let error := Text ("Field '" +:+ p_key p +:+ "' does not exist") in
  fill_key env cbs p r w =
    (Normal (record error r),
     if enabled (settings w) "throwOnMissingField"
     then log (ConsoleError error) w else w).
Proof.
  intros Hown Hlook error. unfold fill_key.
  rewrite Hown. cbn [negb]. js_unfold. rewrite Hlook.
  by destruct (enabled _ _).
Qed.

(** What an iteration does to the world, and whether it records an error,
    does not depend on the errors recorded so far. *)
Lemma fill_key_merge env cbs p r w :
  fill_key env cbs p r w =
  match fill_key env cbs p (FillResult true []) w with
  | (Normal r0, w') => (Normal (merge_results r r0), w')
  | (Throw e, w') => (Throw e, w')
  end.
Proof.
  destruct (p_own p) eqn:Hown.
  - destruct (lookup_field (dom w) (p_key p)) as [|type nodes] eqn:Hlook.
    + rewrite !(fill_key_absent _ _ p _ w) by done.
      cbv zeta. by rewrite merge_results_record.
    + destruct (includes supportedTypes type) eqn:Hsup.
      * rewrite !(fill_key_supported _ _ p _ w type nodes) by done.
        destruct (try_body env cbs type nodes (p_value p) w) as [[[]|e] w'].
        -- by rewrite merge_results_fresh.
        -- by rewrite merge_results_record.
      * rewrite !(fill_unsupported_type _ _ p _ w type nodes) by done.
        unfold merge_results. simpl. by rewrite andb_false_r.
  - unfold fill_key. rewrite Hown. simpl. unfold ret.
    by rewrite merge_results_fresh.
Qed.

Lemma fill_loop_merge env cbs data r w :
  for_of data (fill_key env cbs) r w =
  match fill env cbs data w with
  | (Normal r0, w') => (Normal (merge_results r r0), w')
  | (Throw e, w') => (Throw e, w')
  end.
Proof.
  unfold fill. revert r w. induction data as [|p data IH]; intros r w.
  - simpl. unfold ret. by rewrite merge_results_fresh.
  - cbn [for_of]. unfold bind. rewrite (fill_key_merge env cbs p r w).
    destruct (fill_key env cbs p (FillResult true []) w) as [[r0|e] w1];
      [|done].
    rewrite (IH (merge_results r r0) w1), (IH r0 w1).
    destruct (for_of data (fill_key env cbs) (FillResult true []) w1)
      as [[r1|e] w2]; [|done].
    by rewrite merge_results_assoc.
Qed.

(** X10: filling with the keys of [d1] followed by those of [d2] is filling
    with [d1] and then, on the form so obtained, with [d2]: the errors are
    those of the first fill followed by those of the second, in that order,
    and the call succeeds exactly when both do. *)
Theorem fill_app env cbs d1 d2 w r1 w1 r2 w2 :
  fill env cbs d1 w = (Normal r1, w1) ->
  fill env cbs d2 w1 = (Normal r2, w2) ->
  fill env cbs (d1 ++ d2) w =
    (Normal (FillResult (success r1 && success r2) (errors r1 ++ errors r2)),
     w2).
Proof.
  intros H1 H2. unfold fill at 1. rewrite for_of_app.
  fold (fill env cbs d1 w). rewrite H1, fill_loop_merge, H2. done.
Qed.

Lemma fill_app_witness :
  let w := World [Control "user" "text" "" false [];
                  Control "cv" "file" "" false []] default_settings [] in
  let w1 := World [Control "user" "text" "john" false [];
                   Control "cv" "file" "" false []] default_settings
                  [ConsoleError (Text "Field 'zz' does not exist")] in
  let e2 := Text "Field 'cv' only supports empty string" in
  fill (Ambient None None) ∅
       ([Property "zz" "1" true; Property "user" "john" true] ++
        [Property "cv" "x" true]) w
  = (Normal (FillResult (false && false)
               ([Text "Field 'zz' does not exist"] ++ [e2])),
     log (ConsoleError e2) w1).
Proof.
  intros w w1 e2.
  apply (fill_app (Ambient None None) ∅
           [Property "zz" "1" true; Property "user" "john" true]
           [Property "cv" "x" true] w
           (FillResult false [Text "Field 'zz' does not exist"]) w1
           (FillResult false [e2]) (log (ConsoleError e2) w1));
    reflexivity.
Defined.

Lemma fill_loop_errors_bounded env cbs data r w r' w' :
  for_of data (fill_key env cbs) r w = (Normal r', w') ->
  length (errors r') <= length (errors r) + length (List.filter p_own data).
Proof.
  revert r w. induction data as [|p data IH]; intros r w.
  - simpl. unfold ret. intros [= <- <-]. lia.
  - cbn [for_of List.filter]. unfold bind. destruct (p_own p) eqn:Hown.
    + destruct (fill_key_cases env cbs p r w) as [w1 [->|[e ->]]]; intros H.
      * apply IH in H. simpl. lia.
      * apply IH in H. simpl in *. rewrite length_app in H. simpl in H. lia.
    + unfold fill_key at 1. rewrite Hown. simpl. apply IH.
Qed.

(** X11: the result that [fill] returns holds at most one error per own key
    of the data. *)
Theorem fill_errors_bounded env cbs data w r w' :
  fill env cbs data w = (Normal r, w') ->
  length (errors r) <= length (List.filter p_own data).
Proof.
  intros H. by apply fill_loop_errors_bounded in H.
Qed.

Lemma fill_errors_bounded_witness :
  let w := World [Control "cv" "file" "" false []] default_settings [] in
  let data := [Property "zz" "1" true; Property "inherited" "2" false;
               Property "cv" "x" true] in
  let r := FillResult false [Text "Field 'zz' does not exist";
                             Text "Field 'cv' only supports empty string"] in
  (fill (Ambient None None) ∅ data w).1 = Normal r /\
  length (errors r) <= length (List.filter p_own data).
Proof.
  intros w data r. split; [reflexivity|].
  apply (fill_errors_bounded (Ambient None None) ∅ data w r
           (fill (Ambient None None) ∅ data w).2).
  reflexivity.
Defined.

(** ** What a [fill] call leaves alone *)

Section Stable.

Context {X : Type} (obs : world -> X).

Lemma stable_ret {A} (a : A) : stable obs (ret a).
Proof. by intros w. Qed.

Lemma stable_throw {A} e : stable obs (@throw A e).
Proof. by intros w. Qed.

Lemma stable_read {A} (proj : control -> A) dflt field :
  stable obs (read proj dflt field).
Proof. by intros w. Qed.

Lemma stable_read_setting name : stable obs (read_setting name).
Proof. by intros w. Qed.

Lemma stable_getInputField name : stable obs (getInputField name).
Proof. by intros w. Qed.

Lemma stable_bind {A B} (m : js A) (k : A -> js B) :
  stable obs m -> (forall a, stable obs (k a)) -> stable obs (bind m k).
Proof.
  intros Hm Hk w. unfold bind. specialize (Hm w).
  destruct (m w) as [[a|e] w1]; simpl in *; [|done].
  by rewrite Hk.
Qed.

Lemma stable_try_catch {A} (m : js A) (h : thrown -> js A) :
  stable obs m -> (forall e, stable obs (h e)) -> stable obs (try_catch m h).
Proof.
  intros Hm Hh w. unfold try_catch. specialize (Hm w).
  destruct (m w) as [[a|e] w1]; simpl in *; [done|].
  by rewrite Hh.
Qed.

Lemma stable_for_of {A S} (xs : list A) (body : A -> S -> js S) s :
  (forall x s', stable obs (body x s')) -> stable obs (for_of xs body s).
Proof.
  intros Hbody. revert s. induction xs as [|x xs IH]; intros s; simpl.
  - apply stable_ret.
  - apply stable_bind; [apply Hbody | apply IH].
Qed.

(** The conditions under which the closure's functions keep [obs]: the two
    kinds of assignment, the trace and the user code do. *)
Variable env : ambient.
Variable cbs : gmap string callback.
Hypothesis obs_value : forall v field, stable obs (write (set_value v) field).
Hypothesis obs_checked :
  forall b field, stable obs (write (set_checked b) field).
Hypothesis obs_emit :
  forall e, diagnostics [e] = [] -> stable obs (emit e).
Hypothesis obs_jquery :
  forall trigger n, jQuery env = Some trigger -> stable obs (run (trigger n)).
Hypothesis obs_callback :
  forall type fn n v, cbs !! type = Some fn -> stable obs (run (fn n v)).

Ltac stable_step :=
  match goal with
  | |- stable _ (bind _ _) => apply stable_bind; [|intros ?]
  | |- stable _ (try_catch _ _) => apply stable_try_catch; [|intros ?]
  | |- stable _ (for_of _ _ _) => apply stable_for_of; intros ? ?
  | |- stable _ (if ?b then _ else _) => destruct b
  | |- stable _ (match ?o with Some _ => _ | None => _ end) =>
      destruct o eqn:?
  | |- stable _ (match ?i with Absent => _ | Present _ _ => _ end) =>
      destruct i
  | |- stable _ _ =>
      solve [ apply stable_ret | apply stable_throw | apply stable_read
            | apply stable_read_setting | apply stable_getInputField
            | apply obs_value | apply obs_checked
            | apply obs_emit; reflexivity
            | eapply obs_jquery; (eassumption || reflexivity)
            | eapply obs_callback; (eassumption || reflexivity) ]
  end.

Lemma stable_dispatch type nodes value :
  stable obs (dispatch env type nodes value).
Proof.
  unfold dispatch, fillFile, fillCheckbox, fillRadio, fillSelect, fillField,
    read_global_key.
  repeat stable_step.
Qed.

(** The [try] block writes nothing to the console. *)
Lemma stable_try_body type nodes value :
  stable obs (try_body env cbs type nodes value).
Proof.
  unfold try_body. pose proof stable_dispatch.
  repeat stable_step; auto.
Qed.

Hypothesis obs_console : forall e, stable obs (emit (ConsoleError e)).

Lemma stable_fill_key p r : stable obs (fill_key env cbs p r).
Proof.
  unfold fill_key. pose proof stable_try_body.
  repeat stable_step; auto.
Qed.

Lemma stable_fill data : stable obs (fill env cbs data).
Proof.
  unfold fill. apply stable_for_of. intros p r. apply stable_fill_key.
Qed.

End Stable.

Lemma static_alter upd field (d : list control) :
  (forall c, el_name (upd c) = el_name c /\ el_type (upd c) = el_type c /\
             el_options (upd c) = el_options c) ->
  static (alter upd field d) = static d.
Proof.
  intros Hupd. unfold static. rewrite (list_fmap_alter _ upd id).
  - by apply list_alter_id.
  - apply Forall_forall. intros c _. by destruct (Hupd c) as (-> & -> & ->).
Qed.

(** X12: [fill] itself writes nothing but [value] and [checked]. When the
    registered callbacks and jQuery handlers do not rewrite the form, a
    [fill] call keeps the number of controls and every control's name, type
    and option list. *)
Theorem fill_keeps_static env cbs data w :
  inert env cbs ->
  static (dom (fill env cbs data w).2) = static (dom w) /\
  length (dom (fill env cbs data w).2) = length (dom w).
Proof.
  intros [Hjq Hcb].
  assert (static (dom (fill env cbs data w).2) = static (dom w)) as H.
  { apply (stable_fill (fun w => static (dom w)) env cbs).
    - intros v field w0. simpl. apply static_alter. by intros [].
    - intros b field w0. simpl. apply static_alter. by intros [].
    - by intros e _ w0.
    - intros trigger n Htr w0. unfold run.
      rewrite (Hjq trigger n Htr (dom w0)).
      by destruct (ef_thrown _).
    - intros type fn n v Hfn w0. unfold run.
      rewrite (Hcb type fn n v Hfn (dom w0)).
      by destruct (ef_thrown _).
    - by intros e w0. }
  split; [exact H|].
  apply (f_equal length) in H. unfold static in H.
  by rewrite !length_fmap in H.
Qed.

Lemma fill_keeps_static_witness :
  let fn := fun (_ : nat) (_ : string) (f : list control) =>
              Effect f [("strict", false)] None in
  let w := World [Control "a" "text" "old" false [];
                  Control "c" "checkbox" "x" true [];
                  Control "s" "select-one" "US" false ["US"; "FR"]]
                 default_settings [] in
  let data := [Property "a" "new" true; Property "c" "x,y" true;
               Property "s" "FR" true; Property "zz" "" true] in
  static (dom (fill (Ambient None None) {["text" := fn]} data w).2)
  = static (dom w) /\
  length (dom (fill (Ambient None None) {["text" := fn]} data w).2)
  = length (dom w).
Proof.
  intros fn w data. apply fill_keeps_static. split.
  - intros trigger n H. discriminate.
  - intros type g n v H f. apply lookup_singleton_Some in H as [_ <-].
    reflexivity.
Defined.

Lemma fill_key_keeps_settings env cbs p r :
  setting_free env cbs -> stable settings (fill_key env cbs p r).
Proof.
  intros [Hjq Hcb]. apply (stable_fill_key settings env cbs).
  - by intros v field w0.
  - by intros b field w0.
  - by intros e _ w0.
  - intros trigger n Htr w0. unfold run.
    rewrite (Hjq trigger n (dom w0) Htr). by destruct (ef_thrown _).
  - intros type fn n v Hfn w0. unfold run.
    rewrite (Hcb type fn n v (dom w0) Hfn). by destruct (ef_thrown _).
  - by intros e w0.
Qed.

(** X13: [fill] never assigns a setting. When the registered callbacks and
    jQuery handlers make no [setting] call, the settings after a [fill] call
    are the settings before it. *)
Theorem fill_keeps_settings env cbs data w :
  setting_free env cbs ->
  settings (fill env cbs data w).2 = settings w.
Proof.
  intros Hfree. unfold fill. apply stable_for_of. intros p r.
  by apply fill_key_keeps_settings.
Qed.

Lemma fill_keeps_settings_witness :
  let fn := fun (_ : nat) (_ : string) (f : list control) =>
              Effect [] [] (Some (ErrorObject "boom")) in
  let s := setting "throwOnFileError" false default_settings in
  let w := World [Control "a" "text" "old" false [];
                  Control "cv" "file" "" false []] s [] in
  settings (fill (Ambient None None) {["text" := fn]}
              [Property "a" "new" true; Property "cv" "x" true;
               Property "zz" "" true] w).2 = s.
Proof.
  intros fn s w. apply (fill_keeps_settings (Ambient None None)). split.
  - intros trigger n f H. discriminate.
  - intros type g n v f H. apply lookup_singleton_Some in H as [_ <-].
    reflexivity.
Defined.

(** ** Console diagnostics *)

Lemma diagnostics_app tr1 tr2 :
  diagnostics (tr1 ++ tr2) = (diagnostics tr1 ++ diagnostics tr2)%list.
Proof. apply omap_app. Qed.

Lemma try_body_console env cbs type nodes value w :
  diagnostics (trace (try_body env cbs type nodes value w).2)
  = diagnostics (trace w).
Proof.
  apply (stable_try_body (fun w => diagnostics (trace w)) env cbs).
  - by intros v field w0.
  - by intros b field w0.
  - intros e He w0. simpl. by rewrite diagnostics_app, He, app_nil_r.
  - intros trigger n _ w0. unfold run. by destruct (ef_thrown _).
  - intros ty fn n v _ w0. unfold run. by destruct (ef_thrown _).
Qed.

(** One iteration: what it records and what it writes to the console. *)
Lemma fill_key_diagnostics env cbs p r w :
  exists r' w' es logged,
    fill_key env cbs p r w = (Normal r', w') /\
    errors r' = (errors r ++ es)%list /\
    diagnostics (trace w') = (diagnostics (trace w) ++ logged)%list /\
    sublist logged es /\
    (both_enabled (settings w) -> logged = es).
Proof.
  destruct (p_own p) eqn:Hown.
  - destruct (lookup_field (dom w) (p_key p)) as [|type nodes] eqn:Hlook.
    + rewrite (fill_key_absent env cbs p r w) by done. cbv zeta.
      eexists _, _, [_], (if enabled (settings w) "throwOnMissingField"
                          then [_] else []).
      split; [reflexivity|]. split; [done|]. unfold both_enabled.
      destruct (enabled (settings w) "throwOnMissingField"); simpl.
      * rewrite diagnostics_app. repeat split; done.
      * rewrite app_nil_r. repeat split; [apply sublist_nil_l|].
        by intros [? _].
    + destruct (includes supportedTypes type) eqn:Hsup.
      * rewrite (fill_key_supported env cbs p r w type nodes) by done.
        pose proof (try_body_console env cbs type nodes (p_value p) w) as Hq.
        destruct (try_body env cbs type nodes (p_value p) w) as [[[]|e] w1];
          simpl in Hq.
        -- exists r, w1, [], []. rewrite !app_nil_r. repeat split; done.
        -- exists (record e r), (log (ConsoleError e) w1), [e], [e].
           simpl. rewrite diagnostics_app, Hq. repeat split; done.
      * rewrite (fill_unsupported_type env cbs p r w type nodes) by done.
        cbv zeta.
        eexists _, _, [_], (if enabled (settings w) "throwOnUnsupportedType"
                            then [_] else []).
        split; [reflexivity|]. split; [done|]. unfold both_enabled.
        destruct (enabled (settings w) "throwOnUnsupportedType"); simpl.
        -- rewrite diagnostics_app. repeat split; done.
        -- rewrite app_nil_r. repeat split; [apply sublist_nil_l|].
           by intros [_ ?].
  - exists r, w, [], []. unfold fill_key. rewrite Hown, !app_nil_r.
    repeat split; done.
Qed.

Lemma fill_loop_diagnostics env cbs data r w :
  exists r' w' es logged,
    for_of data (fill_key env cbs) r w = (Normal r', w') /\
    errors r' = (errors r ++ es)%list /\
    diagnostics (trace w') = (diagnostics (trace w) ++ logged)%list /\
    sublist logged es /\
    (setting_free env cbs -> both_enabled (settings w) -> logged = es).
Proof.
  revert r w. induction data as [|p data IH]; intros r w.
  - exists r, w, [], []. rewrite !app_nil_r. repeat split; done.
  - cbn [for_of]. unfold bind.
    destruct (fill_key_diagnostics env cbs p r w)
      as (r1 & w1 & es1 & lg1 & Hkey & He1 & Hd1 & Hs1 & Hall1).
    rewrite Hkey.
    destruct (IH r1 w1) as (r2 & w2 & es2 & lg2 & -> & He2 & Hd2 & Hs2 & Hall2).
    exists r2, w2, (es1 ++ es2)%list, (lg1 ++ lg2)%list.
    split; [done|]. split; [by rewrite He2, He1, app_assoc|].
    split; [by rewrite Hd2, Hd1, app_assoc|].
    split; [by apply sublist_app|].
    intros Hfree Hen. rewrite (Hall1 Hen). f_equal. apply Hall2; [done|].
    pose proof (fill_key_keeps_settings env cbs p r Hfree w) as Hset.
    rewrite Hkey in Hset. simpl in Hset. by rewrite Hset.
Qed.

(** X14: whatever the settings, every error that a [fill] call which
    returns has written to the console is also in the returned [errors]: the
    console output of the call is a subsequence of [result.errors], in the
    same order. *)
Theorem fill_diagnostics_recorded env cbs data w r w' :
  fill env cbs data w = (Normal r, w') ->
  exists logged,
    diagnostics (trace w') = (diagnostics (trace w) ++ logged)%list /\
    sublist logged (errors r).
Proof.
  intros Hfill.
  destruct (fill_loop_diagnostics env cbs data (FillResult true []) w)
    as (r0 & w0 & es & logged & H & He & Hd & Hs & _).
  unfold fill in Hfill. rewrite Hfill in H. injection H as <- <-.
  exists logged. simpl in He. by rewrite He.
Qed.

Lemma fill_diagnostics_recorded_witness :
  let w := World [Control "cv" "file" "" false []]
                 (setting "throwOnMissingField" false default_settings) [] in
  let data := [Property "zz" "1" true; Property "cv" "x" true] in
  let e1 := Text "Field 'zz' does not exist" in
  let e2 := Text "Field 'cv' only supports empty string" in
  (fill (Ambient None None) ∅ data w).1 = Normal (FillResult false [e1; e2]) /\
  trace (fill (Ambient None None) ∅ data w).2 = [ConsoleError e2] /\
  exists logged,
    diagnostics (trace (fill (Ambient None None) ∅ data w).2)
      = (diagnostics (trace w) ++ logged)%list /\
    sublist logged [e1; e2].
Proof.
  intros w data e1 e2. split; [reflexivity|]. split; [reflexivity|].
  apply (fill_diagnostics_recorded (Ambient None None) ∅ data w
           (FillResult false [e1; e2])
           (fill (Ambient None None) ∅ data w).2).
  reflexivity.
Defined.

(** X15: with [throwOnMissingField] and [throwOnUnsupportedType] enabled
    (as they are by default) and user code that makes no [setting] call,
    the console output of a [fill] call that returns is exactly
    [result.errors]. *)
Theorem fill_diagnostics_complete env cbs data w r w' :
  setting_free env cbs ->
  enabled (settings w) "throwOnMissingField" = true ->
  enabled (settings w) "throwOnUnsupportedType" = true ->
  fill env cbs data w = (Normal r, w') ->
  diagnostics (trace w') = (diagnostics (trace w) ++ errors r)%list.
Proof.
  intros Hfree H1 H2 Hfill.
  destruct (fill_loop_diagnostics env cbs data (FillResult true []) w)
    as (r0 & w0 & es & logged & H & He & Hd & _ & Hall).
  unfold fill in Hfill. rewrite Hfill in H. injection H as <- <-.
  rewrite Hd, He. simpl. f_equal. apply Hall; [done | by split].
Qed.

Lemma fill_diagnostics_complete_witness :
  let w := World [Control "cv" "file" "" false [];
                  Control "bio" "textarea" "" false []]
                 default_settings [] in
  let data := [Property "zz" "1" true; Property "cv" "x" true;
               Property "bio" "y" true] in
  let r := FillResult false [Text "Field 'zz' does not exist";
                             Text "Field 'cv' only supports empty string";
                             Text "Field 'bio' type not supported"] in
  (fill (Ambient None None) ∅ data w).1 = Normal r /\
  diagnostics (trace (fill (Ambient None None) ∅ data w).2)
    = (diagnostics (trace w) ++ errors r)%list.
Proof.
  intros w data r. split; [reflexivity|].
  apply (fill_diagnostics_complete (Ambient None None) ∅ data w r
           (fill (Ambient None None) ∅ data w).2); [|reflexivity..].
  split.
  - intros trigger n f H. discriminate.
  - intros type g n v f H. rewrite lookup_empty in H. discriminate.
Defined.

(** ** More on [setting] *)

Lemma agree_setting_unrecognized k v s :
  k ∉ recognized -> k <> "strict" -> agree (setting k v s) s.
Proof.
  intros Hk Hstrict j Hj. rewrite setting_lookup.
  rewrite decide_False by (intros ->; done).
  by destruct (String.eqb_spec k "strict").
Qed.

(** X16: [setting] accepts any key. A key that is neither [strict] nor one
    of the four recognized names (a misspelt name, say) has no effect: a
    later [fill] returns the same result, leaves the same form and writes
    the same trace as if the call had not been made. Unless the key is
    [__proto__], which an object does not keep as a property of its own,
    the value is stored under it. *)
Theorem setting_unrecognized_key env cbs data f tr s k v :
  k ∉ recognized -> k <> "strict" ->
  let out := fill env cbs data (World f (setting k v s) tr) in
  let out' := fill env cbs data (World f s tr) in
  (k <> "__proto__" -> setting k v s !! k = Some v) /\
  out.1 = out'.1 /\ dom out.2 = dom out'.2 /\ trace out.2 = trace out'.2 /\
  agree (settings out.2) (settings out'.2).
Proof.
  intros Hk Hstrict out out'.
  split; [intros _; rewrite setting_lookup; by case_decide|].
  destruct (respects_fill env cbs data (World f (setting k v s) tr)
              (World f s tr)) as (Hc & Hd & Ht & Hs); [|done].
  split; [done|]. split; [done|]. by apply agree_setting_unrecognized.
Qed.

Lemma setting_unrecognized_key_witness :
  let s := setting "throwOnMissingfield" false default_settings in
  let data := [Property "zz" "1" true] in
  let f := [Control "a" "text" "" false []] in
  s !! "throwOnMissingfield" = Some false /\
  (fill (Ambient None None) ∅ data (World f s [])).1
  = (fill (Ambient None None) ∅ data (World f default_settings [])).1 /\
  trace (fill (Ambient None None) ∅ data (World f s [])).2
  = trace (fill (Ambient None None) ∅ data (World f default_settings [])).2.
Proof.
  intros s data f.
  assert ("throwOnMissingfield" ∉ recognized) as Hk.
  { unfold recognized. rewrite !not_elem_of_cons.
    repeat split; try discriminate. apply not_elem_of_nil. }
  destruct (setting_unrecognized_key (Ambient None None) ∅ data f []
              default_settings "throwOnMissingfield" false Hk
              ltac:(discriminate)) as (H1 & H2 & _ & H3 & _).
  split; [apply H1; discriminate|]. split; [exact H2 | exact H3].
Defined.

(** X17: [setting('strict', v)] overwrites every entry of the settings
    object, recognized or not: afterwards every entry holds [v], and the
    keys are the keys there were, plus [strict]. *)
Theorem setting_strict_all_entries v (s : gmap string bool) :
  (forall j b, setting "strict" v s !! j = Some b -> b = v) /\
  (forall j, is_Some (setting "strict" v s !! j) <->
             j = "strict" \/ is_Some (s !! j)).
Proof.
  split.
  - intros j b. rewrite setting_lookup. case_decide; [congruence|].
    simpl. destruct (s !! j); simpl; congruence.
  - intros j. rewrite setting_lookup. case_decide.
    + split; [by left | by eexists].
    + simpl. rewrite fmap_is_Some. split; [by right|].
      intros [?|?]; [congruence | done].
Qed.

Lemma apply_setting_calls_lookup calls (s : gmap string bool) k b :
  k <> "strict" -> s !! k = Some b ->
  apply_setting_calls calls s !! k = Some (default b (last_write k calls)).
Proof.
  intros Hk. revert s b.
  induction calls as [|[k' v] calls IH]; intros s b Hs; [done|].
  cbn [apply_setting_calls foldl last_write]. cbn [fst snd].
  fold (apply_setting_calls calls (setting k' v s)).
  assert (setting k' v s !! k =
          Some (if String.eqb k' k || String.eqb k' "strict" then v else b))
    as Hstep.
  { rewrite setting_lookup, Hs.
    destruct (String.eqb_spec k' k) as [->|Hne].
    - by rewrite decide_True.
    - rewrite decide_False by done. by destruct (String.eqb k' "strict"). }
  rewrite (IH _ _ Hstep).
  destruct (last_write k calls); [done|].
  by destruct (String.eqb k' k || String.eqb k' "strict").
Qed.

(** X18: after any sequence of [setting] calls on a fresh closure, each of
    the four recognized settings is present and holds the value given by
    the last call that named it or named [strict]; it holds the default
    [true] when there was no such call. *)
Theorem settings_after_calls calls :
  let s := apply_setting_calls calls default_settings in
  Forall (fun k => s !! k = Some (default true (last_write k calls)) /\
                   enabled s k = default true (last_write k calls))
         recognized.
Proof.
  intros s. apply Forall_forall. intros k Hk.
  assert (s !! k = Some (default true (last_write k calls))) as H.
  { apply apply_setting_calls_lookup.
    - intros ->. revert Hk. unfold recognized.
      rewrite !elem_of_cons, elem_of_nil.
      intros [?|[?|[?|[?|[]]]]]; discriminate.
    - revert Hk. unfold recognized. rewrite !elem_of_cons, elem_of_nil.
      intros [->|[->|[->|[->|[]]]]]; reflexivity. }
  split; [exact H|]. unfold enabled. by rewrite H.
Qed.

Example settings_after_calls_example :
  let s := apply_setting_calls
             [("throwOnFileError", false); ("strict", true);
              ("throwOnMissingField", false); ("other", false)]
             default_settings in
  enabled s <$> recognized = [false; true; true; true].
Proof. reflexivity. Qed.

(** X19: composing [setting] calls. A second call for the same key makes
    the first one unobservable, and calls for two different keys, neither
    of them [strict], can be made in either order. *)
Theorem setting_compose k1 k2 v1 v2 (s : gmap string bool) :
  setting k1 v2 (setting k1 v1 s) = setting k1 v2 s /\
  (k1 <> k2 -> k1 <> "strict" -> k2 <> "strict" ->
   setting k1 v1 (setting k2 v2 s) = setting k2 v2 (setting k1 v1 s)).
Proof.
  split.
  - apply map_eq. intros j. rewrite !setting_lookup.
    case_decide; [done|].
    destruct (String.eqb k1 "strict"); [|done].
    by destruct (s !! j).
  - intros Hne H1 H2. apply map_eq. intros j. rewrite !setting_lookup.
    destruct (String.eqb_spec k1 "strict"); [done|].
    destruct (String.eqb_spec k2 "strict"); [done|].
    repeat case_decide; congruence.
Qed.

(** ** Filling twice *)





Section NoUserCode.

Variable env : ambient.
Variable cbs : gmap string callback.
Hypothesis no_jquery : jQuery env = None.
Hypothesis no_callback : forall type, cbs !! type = None.







(** *** What the patches do to a control *)
















End NoUserCode.




(** Filling twice, evaluated on a form with every kind of field. *)
Example fill_twice_example :
  let env := Ambient None None in
  let w := World [Control "user" "text" "" false [];
                  Control "tag" "checkbox" "a" true [];
                  Control "tag" "checkbox" "b" false [];
                  Control "sex" "radio" "m" false [];
                  Control "country" "select-one" "US" false ["US"; "FR"];
                  Control "cv" "file" "" false []] default_settings [] in
  let data := [Property "user" "john" true; Property "tag" "b,c" true;
               Property "sex" "m" true; Property "country" "XX" true;
               Property "cv" "x" true; Property "zz" "1" true] in
  let first := fill env ∅ data w in
  first.1 = Normal (FillResult false
              [ReferenceError "key";
               Text "Field 'cv' only supports empty string";
               Text "Field 'zz' does not exist"]) /\
  dom first.2 = [Control "user" "text" "john" false [];
                 Control "tag" "checkbox" "a" false [];
                 Control "tag" "checkbox" "b" true [];
                 Control "sex" "radio" "m" true [];
                 Control "country" "select-one" "US" false ["US"; "FR"];
                 Control "cv" "file" "" false []] /\
  dom (fill env ∅ data first.2).2 = dom first.2.
Proof. repeat split. Qed.
